(** * PipeCost: cost attribution and waste detection, verified

    A shallow embedding of [pipecost.py] (model graph, waste detectors,
    report) and [snowflake_parser.py] (query normaliser, cost attributor,
    monthly aggregator), followed by the properties the specification
    states about them.

    Conventions of the embedding.
    - A Python [float] is an exact rational ([Q]); comparisons between
      computed values are therefore stated with [==].  Infinities and NaN
      have no counterpart.  The two detectors that compare a computed
      float with a threshold are also embedded over the interpreter's
      floats, an abstract type with the operations the code applies to it
      (class [Floats], module [PipecostFloat]); what is proved of them
      holds however each operation rounds.
    - A Python [str] is a [string], one [ascii] for each character, so
      for code points up to 255.  What the interpreter knows about
      characters, [str.lower] and the regular-expression class [\w], is a
      parameter of the code that uses it.
    - A Python [dict] is an association list in insertion order
      (module [Dict]); Python iterates a dict in that order.
    - A Python exception is a value of [exn]; code that can raise lives in
      the [result] monad.  A division whose divisor is computed goes through
      [truediv], which raises [ZeroDivisionError] on zero; a division by a
      non-zero literal is written with [/].
    - A naive [datetime] is its number of microseconds on the time line. *)

From Stdlib Require Import List String Ascii Bool ZArith QArith Qround Qminmax Qabs.
From Stdlib Require Import Lia Lqa Permutation Sorted DecimalString Setoid Morphisms.
Import ListNotations.

Set Warnings "-register-all".

Open Scope string_scope.
Open Scope Z_scope.
Open Scope Q_scope.

(* ================================================================== *)
(** * Part I: the program *)
(* ================================================================== *)

(** ** Python runtime: exceptions, numbers, sorting *)

Inductive exn : Type :=
| ValueError (msg : string)
| TypeError
| AttributeError
| KeyError (key : string)
| ZeroDivisionError
| OverflowError.

Inductive result (A : Type) : Type :=
| Ok (a : A)
| Raise (e : exn).

Arguments Ok {A} a.
Arguments Raise {A} e.

Definition bind {A B : Type} (r : result A) (k : A -> result B) : result B :=
  match r with
  | Ok a => k a
  | Raise e => Raise e
  end.

Notation "x <- r ;; k" := (bind r (fun x => k))
  (at level 61, r at next level, right associativity).

(** A [for] loop whose body may raise: the accumulator is threaded through,
    the first exception aborts the loop. *)
Fixpoint for_each {A S : Type} (body : S -> A -> result S) (l : list A) (s : S)
  : result S :=
  match l with
  | [] => Ok s
  | x :: l' => s' <- body s x ;; for_each body l' s'
  end.

(** A list comprehension whose element expression may raise. *)
Fixpoint comprehension {A B : Type} (f : A -> result B) (l : list A)
  : result (list B) :=
  match l with
  | [] => Ok []
  | x :: l' => y <- f x ;; ys <- comprehension f l' ;; Ok (y :: ys)
  end.

(** [x / y] on floats. *)
Definition truediv (x y : Q) : result Q :=
  if Qeq_bool y 0 then Raise ZeroDivisionError else Ok (x / y).

Definition Qlt_bool (x y : Q) : bool := negb (Qle_bool y x).

Definition Qsum (l : list Q) : Q := fold_right Qplus 0 l.

Definition Zsum (l : list Z) : Z := fold_right Z.add 0%Z l.

(** [int(x)] on a float: truncation towards zero. *)
Definition Qtrunc (q : Q) : Z :=
  if Qle_bool 0 q then Qfloor q else Qceiling q.

(** [float(n)] for an integer [n]: the nearest float, ties to the even
    mantissa of 53 bits.  An integer that rounds to [2^1024], so one of
    magnitude [2^1024 - 2^970] or more, is too large: the call raises
    [OverflowError] ([None] here). *)
Definition round_to_53_bits (a : Z) : Z :=
  let shift := (Z.log2 a + 1 - 53)%Z in
  if (shift <=? 0)%Z then a
  else
    let m := (a / 2 ^ shift)%Z in
    let r := (a mod 2 ^ shift)%Z in
    let half := (2 ^ (shift - 1))%Z in
    let m' :=
      if (r <? half)%Z then m
      else if (half <? r)%Z then (m + 1)%Z
      else if Z.even m then m else (m + 1)%Z in
    (m' * 2 ^ shift)%Z.

Definition float_of_int (n : Z) : option Q :=
  if (2 ^ 1024 - 2 ^ 970 <=? Z.abs n)%Z then None
  else Some (inject_Z (Z.sgn n * round_to_53_bits (Z.abs n))).

(** Nearest integer, ties to the even one. *)
Definition round_half_even (q : Q) : Z :=
  let f := Qfloor q in
  match Qcompare (q - inject_Z f) (1 # 2) with
  | Lt => f
  | Gt => (f + 1)%Z
  | Eq => if Z.even f then f else (f + 1)%Z
  end.

Definition pow10 (n : nat) : Q := inject_Z (10 ^ Z.of_nat n).

(** [round(x, n)]. *)
Definition round (q : Q) (n : nat) : Q :=
  inject_Z (round_half_even (q * pow10 n)) / pow10 n.

Definition Z_to_string (z : Z) : string := NilZero.string_of_int (Z.to_int z).

Fixpoint zero_pad (width : nat) (s : string) : string :=
  match width with
  | O => s
  | S w => if (String.length s <=? w)%nat then zero_pad w ("0" ++ s) else s
  end.

(** [f"{x:.nf}"]: fixed-point rendering with [n] decimals.  (Python also
    prints a sign for a negative value that rounds to zero.) *)
Definition format_f (n : nat) (q : Q) : string :=
  let z := round_half_even (q * pow10 n) in
  let a := Z.abs z in
  let sign := if (z <? 0)%Z then "-" else "" in
  let int_part := Z_to_string (a / 10 ^ Z.of_nat n) in
  match n with
  | O => sign ++ int_part
  | _ => sign ++ int_part ++ "."
         ++ zero_pad n (Z_to_string (a mod 10 ^ Z.of_nat n))
  end.

(** [sorted(l, key=...)]: a stable sort, here by insertion; [le a b] says
    that the key of [a] is at most the key of [b]. *)
Fixpoint insert_sorted {A : Type} (le : A -> A -> bool) (x : A) (l : list A)
  : list A :=
  match l with
  | [] => [x]
  | y :: l' => if le x y then x :: y :: l' else y :: insert_sorted le x l'
  end.

Definition sorted {A : Type} (le : A -> A -> bool) (l : list A) : list A :=
  fold_right (insert_sorted le) [] l.

(** [l[:n]] for an integer [n] of either sign. *)
Definition slice_to {A : Type} (n : Z) (l : list A) : list A :=
  if (0 <=? n)%Z then firstn (Z.to_nat n) l
  else firstn (List.length l - Z.to_nat (- n))%nat l.

(** ** The interpreter's floats

    Whether a computed value reaches a threshold depends on how each
    operation rounds.  The two detectors that test thresholds are
    therefore embedded a second time, in [PipecostFloat], over the floats
    of the interpreter: a type with the operations the code applies to
    them, of which only what holds of every float is assumed. *)

Class Floats (F : Type) : Type := {
  (** An [int] operand of a float operation, converted. *)
  of_int : Z -> F;
  (** A float literal, given by the decimal it is written as. *)
  literal : Q -> F;
  fadd : F -> F -> F;
  fmul : F -> F -> F;
  (** [x / y] for a [y] other than zero. *)
  fdiv : F -> F -> F;
  fneg : F -> F;
  (** [x <= y], [x < y] and [x == 0]. *)
  fle : F -> F -> bool;
  flt : F -> F -> bool;
  is_zero : F -> bool;
  (** [sum(l)] *)
  fsum : list F -> F;
  (** [timedelta.total_seconds()] of so many microseconds. *)
  total_seconds : Z -> F;
  (** [round(x, n)] and [f"{x:.nf}"]. *)
  fround : F -> nat -> F;
  fformat : nat -> F -> string;
  one_nonzero : is_zero (literal 1) = false;
  tenth_nonzero : is_zero (literal (1 # 10)) = false;
  of_int_nonzero : forall z : Z, z <> 0%Z -> is_zero (of_int z) = false;
  zero_below_tenth :
    forall x : F, is_zero x = true -> flt x (literal (1 # 10)) = true;
  sum_nil : is_zero (fsum []) = true;
  zero_le_zero : forall x : F, is_zero x = true -> fle x (of_int 0) = true;
  le_zero_le :
    forall x : F,
      fle x (of_int 0) = true -> fle (of_int 0) x = true -> is_zero x = true
}.

(** The floats read as exact rationals: no operation rounds, apart from
    [round] and the formatting. *)
#[export] Instance Exact : Floats Q.
Proof.
  refine {| of_int := inject_Z;
            literal := fun q => q;
            fadd := Qplus;
            fmul := Qmult;
            fdiv := Qdiv;
            fneg := Qopp;
            fle := Qle_bool;
            flt := Qlt_bool;
            is_zero := fun q => Qeq_bool q 0;
            fsum := fun l => fold_left Qplus l 0;
            total_seconds := fun us => inject_Z us / 1000000;
            fround := round;
            fformat := format_f |}.
  - reflexivity.
  - reflexivity.
  - intros z H. destruct (Qeq_bool (inject_Z z) 0) eqn:E; [ | reflexivity ].
    apply Qeq_bool_iff in E. unfold Qeq in E. simpl in E. lia.
  - intros x H. apply Qeq_bool_iff in H. unfold Qlt_bool.
    destruct (Qle_bool (1 # 10) x) eqn:E; [ | reflexivity ].
    apply Qle_bool_iff in E. lra.
  - reflexivity.
  - intros x H. apply Qeq_bool_iff in H. apply Qle_bool_iff.
    change (inject_Z 0) with 0. lra.
  - intros x H1 H2. apply Qle_bool_iff in H1, H2. apply Qeq_bool_iff.
    change (inject_Z 0) with 0 in H1, H2. lra.
Defined.

(** ** Python dict: an association list in insertion order *)

Module Dict.

Definition t (V : Type) : Type := list (string * V).

Fixpoint lookup {V : Type} (d : t V) (k : string) : option V :=
  match d with
  | [] => None
  | (k', v) :: d' => if String.eqb k' k then Some v else lookup d' k
  end.

(** [d.get(k, default)] *)
Definition get {V : Type} (d : t V) (k : string) (default : V) : V :=
  match lookup d k with
  | Some v => v
  | None => default
  end.

(** [k in d] *)
Definition mem {V : Type} (d : t V) (k : string) : bool :=
  match lookup d k with
  | Some _ => true
  | None => false
  end.

(** [d[k] = v]: an existing key keeps its position, a new one goes last. *)
Fixpoint set {V : Type} (d : t V) (k : string) (v : V) : t V :=
  match d with
  | [] => [(k, v)]
  | (k', v') :: d' =>
      if String.eqb k' k then (k', v) :: d' else (k', v') :: set d' k v
  end.

Definition keys {V : Type} (d : t V) : list string := map fst d.

Definition values {V : Type} (d : t V) : list V := map snd d.

Definition items {V : Type} (d : t V) : list (string * V) := d.

End Dict.

(** ** hashlib.md5 (RFC 1321), on the bytes of a string *)

Module MD5.

Definition mask32 (x : Z) : Z := (x mod 2 ^ 32)%Z.

Definition rotl32 (x : Z) (c : Z) : Z :=
  mask32 (Z.lor (Z.shiftl x c) (Z.shiftr x (32 - c))).

Definition not32 (x : Z) : Z := (2 ^ 32 - 1 - x)%Z.

Definition shifts : list Z :=
  [7; 12; 17; 22; 7; 12; 17; 22; 7; 12; 17; 22; 7; 12; 17; 22;
   5; 9; 14; 20; 5; 9; 14; 20; 5; 9; 14; 20; 5; 9; 14; 20;
   4; 11; 16; 23; 4; 11; 16; 23; 4; 11; 16; 23; 4; 11; 16; 23;
   6; 10; 15; 21; 6; 10; 15; 21; 6; 10; 15; 21; 6; 10; 15; 21]%Z.

(** [floor(2^32 * abs(sin(i + 1)))] for [i = 0 .. 63]. *)
Definition sines : list Z :=
  [3614090360; 3905402710; 606105819; 3250441966;
   4118548399; 1200080426; 2821735955; 4249261313;
   1770035416; 2336552879; 4294925233; 2304563134;
   1804603682; 4254626195; 2792965006; 1236535329;
   4129170786; 3225465664; 643717713; 3921069994;
   3593408605; 38016083; 3634488961; 3889429448;
   568446438; 3275163606; 4107603335; 1163531501;
   2850285829; 4243563512; 1735328473; 2368359562;
   4294588738; 2272392833; 1839030562; 4259657740;
   2763975236; 1272893353; 4139469664; 3200236656;
   681279174; 3936430074; 3572445317; 76029189;
   3654602809; 3873151461; 530742520; 3299628645;
   4096336452; 1126891415; 2878612391; 4237533241;
   1700485571; 2399980690; 4293915773; 2240044497;
   1873313359; 4264355552; 2734768916; 1309151649;
   4149444226; 3174756917; 718787259; 3951481745]%Z.

Definition bytes_of_string (s : string) : list Z :=
  map (fun c => Z.of_nat (nat_of_ascii c)) (list_ascii_of_string s).

(** [n] bytes of [x], least significant first. *)
Fixpoint le_bytes (n : nat) (x : Z) : list Z :=
  match n with
  | O => []
  | S n' => (x mod 256)%Z :: le_bytes n' (x / 256)
  end.

Definition padding (len : nat) : list Z :=
  let zeros := ((119 - len mod 64) mod 64)%nat in
  (128%Z :: repeat 0%Z zeros ++ le_bytes 8 (8 * Z.of_nat len)%Z)%list.

Fixpoint le_word (bs : list Z) : Z :=
  match bs with
  | [] => 0%Z
  | b :: bs' => (b + 256 * le_word bs')%Z
  end.

Fixpoint words (n : nat) (bs : list Z) : list Z :=
  match n with
  | O => []
  | S n' => le_word (firstn 4 bs) :: words n' (skipn 4 bs)
  end.

Record state : Type := mk_state { sa : Z; sb : Z; sc : Z; sd : Z }.

Definition init : state :=
  mk_state 1732584193 4023233417 2562383102 271733878.

Definition step (m : list Z) (st : state) (i : nat) : state :=
  let '(mk_state a b c d) := st in
  let '(f, g) :=
    if (i <? 16)%nat then
      (Z.lor (Z.land b c) (Z.land (not32 b) d), i)
    else if (i <? 32)%nat then
      (Z.lor (Z.land d b) (Z.land (not32 d) c), ((5 * i + 1) mod 16)%nat)
    else if (i <? 48)%nat then
      (Z.lxor b (Z.lxor c d), ((3 * i + 5) mod 16)%nat)
    else
      (Z.lxor c (Z.lor b (not32 d)), ((7 * i) mod 16)%nat) in
  let f' := mask32 (f + a + nth i sines 0 + nth g m 0)%Z in
  mk_state d (mask32 (b + rotl32 f' (nth i shifts 0)))%Z b c.

Definition compress (st : state) (block : list Z) : state :=
  let m := words 16 block in
  let '(mk_state a b c d) := fold_left (step m) (seq 0 64) st in
  mk_state (mask32 (sa st + a)) (mask32 (sb st + b))
           (mask32 (sc st + c)) (mask32 (sd st + d)).

Fixpoint blocks (n : nat) (bs : list Z) (st : state) : state :=
  match n with
  | O => st
  | S n' => blocks n' (skipn 64 bs) (compress st (firstn 64 bs))
  end.

Definition hex_digit (d : Z) : ascii :=
  ascii_of_nat (Z.to_nat (if (d <? 10)%Z then 48 + d else 87 + d)%Z).

Definition hex_of_bytes (bs : list Z) : string :=
  string_of_list_ascii
    (flat_map (fun b => [hex_digit (b / 16); hex_digit (b mod 16)]) bs).

(** [hashlib.md5(s.encode()).hexdigest()] *)
Definition hexdigest (s : string) : string :=
  let msg := bytes_of_string s in
  let padded := (msg ++ padding (List.length msg))%list in
  let '(mk_state a b c d) := blocks (List.length padded / 64)%nat padded init in
  hex_of_bytes
    (le_bytes 4 a ++ le_bytes 4 b ++ le_bytes 4 c ++ le_bytes 4 d)%list.

End MD5.

(** ** The dbt manifest as [json.load] returns it

    Optional keys are [option]s; the [nodes] object is the list of its
    items in file order. *)

Module Manifest.

(** [node["config"]] *)
Record Config : Type := mkConfig { materialized : option string }.

(** [node["depends_on"]] *)
Record DependsOn : Type := mkDependsOn { nodes : option (list string) }.

Record Node : Type := mkNode {
  resource_type : option string;
  name : option string;
  alias : option string;
  schema : option string;
  config : option Config;
  raw_sql : option string;
  raw_code : option string;
  depends_on : option DependsOn
}.

(** The manifest itself; [top_nodes] is its key ["nodes"]. *)
Record t : Type := mkManifest { top_nodes : option (list (string * Node)) }.

(** [manifest.get("nodes", {}).items()] *)
Definition node_items (mf : t) : list (string * Node) :=
  match top_nodes mf with
  | Some l => l
  | None => []
  end.

(** [node.get("resource_type") != "model"] *)
Definition not_a_model (node : Node) : bool :=
  match resource_type node with
  | Some k => negb (String.eqb k "model")
  | None => true
  end.

End Manifest.

(** ** pipecost.py *)

Module Pipecost.

Definition datetime : Type := Z.

Record Model : Type := mkModel {
  name : string;
  materialization : string;
  sql_hash : string;
  upstream : list string;
  downstream : list string
}.

Record QueryRecord : Type := mkQueryRecord {
  model_name : string;
  credits_used : Q;
  start_time : datetime;
  warehouse : string
}.

Record Finding : Type := mkFinding {
  category : string;
  severity : string;
  model : string;
  detail : string;
  estimated_savings_pct : Q;
  recommendation : string
}.

(** [d.split(".")[-1]], with [cur] the segment read so far. *)
Fixpoint last_segment_from (cur : string) (d : string) : string :=
  match d with
  | EmptyString => cur
  | String c d' =>
      if Ascii.eqb c "."%char then last_segment_from "" d'
      else last_segment_from (cur ++ String c "") d'
  end.

Definition last_segment (d : string) : string := last_segment_from "" d.

(** The [Model(...)] built from one manifest node. *)
Definition model_of_node (node : Manifest.Node) : result Model :=
  let raw :=
    match Manifest.raw_sql node with
    | Some s => s
    | None => match Manifest.raw_code node with
              | Some s => s
              | None => ""
              end
    end in
  match Manifest.name node with
  | None => Raise (KeyError "name")
  | Some nm =>
      Ok {| name := nm;
            materialization :=
              match Manifest.config node with
              | Some (Manifest.mkConfig (Some k)) => k
              | _ => "view"
              end;
            sql_hash := MD5.hexdigest raw;
            upstream :=
              map last_segment
                match Manifest.depends_on node with
                | Some (Manifest.mkDependsOn (Some l)) => l
                | _ => []
                end;
            downstream := [] |}
  end.

(** First loop of [parse_manifest]. *)
Definition collect_models (mf : Manifest.t) : result (list Model) :=
  for_each
    (fun models item =>
       if Manifest.not_a_model (snd item) then Ok models
       else m <- model_of_node (snd item) ;; Ok (models ++ [m])%list)
    (Manifest.node_items mf) [].

(** [name_map = {m.name: m for m in models}]: the model objects are
    shared with the list [models], so the map holds their positions. *)
Definition build_name_map (models : list Model) : Dict.t nat :=
  fold_left (fun d im => Dict.set d (name (snd im)) (fst im))
            (combine (seq 0 (List.length models)) models) [].

(** [models[i].downstream.append(nm)] *)
Fixpoint append_downstream (i : nat) (nm : string) (store : list Model)
  : list Model :=
  match store, i with
  | [], _ => []
  | m :: store', O =>
      {| name := name m; materialization := materialization m;
         sql_hash := sql_hash m; upstream := upstream m;
         downstream := (downstream m ++ [nm])%list |} :: store'
  | m :: store', S i' => m :: append_downstream i' nm store'
  end.

(** Second loop of [parse_manifest]; [store] is the list of model objects
    as mutated so far.  Names and upstream lists are never mutated, so
    the loop reads them from the list it started with. *)
Definition link_downstream (name_map : Dict.t nat) (models : list Model)
  : list Model :=
  fold_left
    (fun store m =>
       fold_left
         (fun store up =>
            match Dict.lookup name_map up with
            | Some i => append_downstream i (name m) store
            | None => store
            end)
         (upstream m) store)
    models models.

Definition parse_manifest (mf : Manifest.t) : result (list Model) :=
  models <- collect_models mf ;;
  Ok (link_downstream (build_name_map models) models).

(** [cm[q.model_name] += q.credits_used] over a [defaultdict(float)],
    then [sum(cm.values()) or 1.0]. *)
Definition accumulate_costs (queries : list QueryRecord) : Dict.t Q :=
  fold_left
    (fun cm q =>
       Dict.set cm (model_name q) (Dict.get cm (model_name q) 0 + credits_used q))
    queries [].

Definition _cost_map (queries : list QueryRecord) : Dict.t Q * Q :=
  let cm := accumulate_costs queries in
  let s := Qsum (Dict.values cm) in
  (cm, if Qeq_bool s 0 then 1 else s).

(** Sort key [lambda f: -f.estimated_savings_pct]. *)
Definition by_savings_desc (f g : Finding) : bool :=
  Qle_bool (- estimated_savings_pct f) (- estimated_savings_pct g).

Definition is_empty {A : Type} (l : list A) : bool :=
  match l with
  | [] => true
  | _ => false
  end.

Definition zombie_step (cm : Dict.t Q) (total : Q)
    (findings : list Finding) (m : Model) : result (list Finding) :=
  if negb (is_empty (downstream m)) || Qle_bool (Dict.get cm (name m) 0) 0
  then Ok findings
  else
    share <- truediv (Dict.get cm (name m) 0) total ;;
    let pct := share * 100 in
    if Qle_bool 1 pct then
      let sev := if Qle_bool 5 pct then "critical" else "warning" in
      Ok (findings ++
          [ {| category := "zombie"; severity := sev; model := name m;
               detail := "Costs " ++ format_f 1 pct ++ "% ("
                         ++ format_f 1 (Dict.get cm (name m) 0)
                         ++ " credits), zero downstream";
               estimated_savings_pct := round pct 1;
               recommendation := "Archive '" ++ name m ++ "' to save ~"
                                 ++ format_f 1 pct ++ "%" |} ])%list
    else Ok findings.

Definition detect_zombies (models : list Model) (queries : list QueryRecord)
  : result (list Finding) :=
  let '(cm, total) := _cost_map queries in
  findings <- for_each (zombie_step cm total) models [] ;;
  Ok (sorted by_savings_desc findings).

(** [groups[q.model_name].append(q.start_time)] over a [defaultdict(list)]. *)
Definition group_times (queries : list QueryRecord) : Dict.t (list datetime) :=
  fold_left
    (fun groups q =>
       Dict.set groups (model_name q)
                (Dict.get groups (model_name q) [] ++ [start_time q])%list)
    queries [].

(** [ts[i + 1] - ts[i]] for [i] in [range(len(ts) - 1)], in microseconds. *)
Fixpoint gaps (ts : list datetime) : list Z :=
  match ts with
  | a :: (b :: _) as rest => (b - a)%Z :: gaps rest
  | _ => []
  end.

(** [timedelta.total_seconds() / 3600] *)
Definition hours (microseconds : Z) : Q :=
  inject_Z microseconds / 1000000 / 3600.

Definition Qmax_py (x y : Q) : Q := if Qlt_bool x y then y else x.

Definition Qmin_py (x y : Q) : Q := if Qlt_bool y x then y else x.

Definition over_schedule_step (cm : Dict.t Q) (total : Q)
    (findings : list Finding) (item : string * list datetime)
  : result (list Finding) :=
  let '(nm, times) := item in
  if (List.length times <? 3)%nat then Ok findings
  else
    let ts := sorted Z.leb times in
    let intervals_h := map hours (gaps ts) in
    avg_h <- truediv (Qsum intervals_h)
                     (inject_Z (Z.of_nat (List.length intervals_h))) ;;
    if Qle_bool avg_h 4 then
      runs_day <- truediv 24 (Qmax_py avg_h 0.1) ;;
      share <- truediv (Dict.get cm nm 0 * 0.75) total ;;
      let sav := share * 100 in
      let sev := if Qle_bool avg_h 1 then "critical" else "warning" in
      Ok (findings ++
          [ {| category := "over_schedule"; severity := sev; model := nm;
               detail := "Every " ++ format_f 1 avg_h ++ "h ("
                         ++ format_f 0 runs_day ++ "x/day), "
                         ++ format_f 1 (Dict.get cm nm 0) ++ " credits";
               estimated_savings_pct := round sav 1;
               recommendation := "Reduce to every "
                                 ++ format_f 0 (Qmax_py (avg_h * 4) 6)
                                 ++ "h + incremental" |} ])%list
    else Ok findings.

Definition detect_over_scheduling (models : list Model)
    (queries : list QueryRecord) : result (list Finding) :=
  let groups := group_times queries in
  let '(cm, total) := _cost_map queries in
  findings <- for_each (over_schedule_step cm total) (Dict.items groups) [] ;;
  Ok (sorted by_savings_desc findings).

(** [groups[m.sql_hash].append(m.name)] for the models with a non-empty
    hash. *)
Definition group_hashes (models : list Model) : Dict.t (list string) :=
  fold_left
    (fun groups m =>
       if String.eqb (sql_hash m) "" then groups
       else Dict.set groups (sql_hash m)
                     (Dict.get groups (sql_hash m) [] ++ [name m])%list)
    models [].

Definition redundant_step (cm : Dict.t Q) (total : Q)
    (findings : list Finding) (item : string * list string)
  : result (list Finding) :=
  let '(h, names) := item in
  if (List.length names <? 2)%nat then Ok findings
  else
    let n := inject_Z (Z.of_nat (List.length names)) in
    let cost := Qsum (map (fun nm => Dict.get cm nm 0) names) in
    kept <- truediv (cost * (n - 1)) n ;;
    share <- truediv kept total ;;
    let sav := share * 100 in
    Ok (findings ++
        [ {| category := "redundant";
             severity := if Qlt_bool 5 sav then "critical" else "warning";
             model := String.concat ", " names;
             detail := Z_to_string (Z.of_nat (List.length names))
                       ++ " models, identical SQL, " ++ format_f 1 cost
                       ++ " credits";
             estimated_savings_pct := round sav 1;
             recommendation := "Consolidate into '" ++ hd "" names ++ "'" |} ])%list.

Definition detect_redundant (models : list Model) (queries : list QueryRecord)
  : result (list Finding) :=
  let groups := group_hashes models in
  let '(cm, total) := _cost_map queries in
  findings <- for_each (redundant_step cm total) (Dict.items groups) [] ;;
  Ok (sorted by_savings_desc findings).

Record Summary : Type := mkSummary {
  zombies : nat;
  over_scheduled : nat;
  redundant : nat
}.

Record Report : Type := mkReport {
  total_credits : Q;
  findings : list Finding;
  savings_pct : Q;
  summary : Summary
}.

Definition analyze (models : list Model) (queries : list QueryRecord)
  : result Report :=
  z <- detect_zombies models queries ;;
  o <- detect_over_scheduling models queries ;;
  r <- detect_redundant models queries ;;
  let all_f := (z ++ o ++ r)%list in
  let total_sav := Qmin_py (Qsum (map estimated_savings_pct all_f)) 75 in
  Ok {| total_credits := Qsum (map credits_used queries);
        findings := all_f;
        savings_pct := round total_sav 1;
        summary := {| zombies := List.length z;
                      over_scheduled := List.length o;
                      redundant := List.length r |} |}.

End Pipecost.

(** ** pipecost.py, over the interpreter's floats *)

Module PipecostFloat.

Record QueryRecord (F : Type) : Type := mkQueryRecord {
  model_name : string;
  credits_used : F;
  start_time : Pipecost.datetime;
  warehouse : string
}.

Arguments mkQueryRecord {F} _ _ _ _.
Arguments model_name {F} _.
Arguments credits_used {F} _.
Arguments start_time {F} _.
Arguments warehouse {F} _.

Record Finding (F : Type) : Type := mkFinding {
  category : string;
  severity : string;
  model : string;
  detail : string;
  estimated_savings_pct : F;
  recommendation : string
}.

Arguments mkFinding {F} _ _ _ _ _ _.
Arguments category {F} _.
Arguments severity {F} _.
Arguments model {F} _.
Arguments detail {F} _.
Arguments estimated_savings_pct {F} _.
Arguments recommendation {F} _.

Section Detectors.

Context {F : Type} {fl : Floats F}.

(** [x / y] *)
Definition divide (x y : F) : result F :=
  if is_zero y then Raise ZeroDivisionError else Ok (fdiv x y).

(** [max(x, y)]: the first argument, unless the second is greater. *)
Definition fmax (x y : F) : F := if flt x y then y else x.

(** [cm[q.model_name] += q.credits_used] over a [defaultdict(float)],
    then [sum(cm.values()) or 1.0]. *)
Definition accumulate_costs (queries : list (QueryRecord F)) : Dict.t F :=
  fold_left
    (fun cm q =>
       Dict.set cm (model_name q)
                (fadd (Dict.get cm (model_name q) (literal 0))
                      (credits_used q)))
    queries [].

Definition _cost_map (queries : list (QueryRecord F)) : Dict.t F * F :=
  let cm := accumulate_costs queries in
  let s := fsum (Dict.values cm) in
  (cm, if is_zero s then literal 1 else s).

(** Sort key [lambda f: -f.estimated_savings_pct]; the sort compares
    keys with [<] only. *)
Definition by_savings_desc (f g : Finding F) : bool :=
  negb (flt (fneg (estimated_savings_pct g))
            (fneg (estimated_savings_pct f))).

(** [cm.get(m.name, 0) <= 0] compares the [int] [0] with itself when
    the name has no entry. *)
Definition zombie_step (cm : Dict.t F) (total : F)
    (findings : list (Finding F)) (m : Pipecost.Model)
  : result (list (Finding F)) :=
  if negb (Pipecost.is_empty (Pipecost.downstream m)) then Ok findings
  else
    match Dict.lookup cm (Pipecost.name m) with
    | None => Ok findings
    | Some c =>
        if fle c (of_int 0) then Ok findings
        else
          share <- divide c total ;;
          let pct := fmul share (of_int 100) in
          if fle (literal 1) pct then
            let sev :=
              if fle (of_int 5) pct then "critical" else "warning" in
            Ok (findings ++
                [ {| category := "zombie"; severity := sev;
                     model := Pipecost.name m;
                     detail := "Costs " ++ fformat 1 pct ++ "% ("
                               ++ fformat 1 c
                               ++ " credits), zero downstream";
                     estimated_savings_pct := fround pct 1;
                     recommendation :=
                       "Archive '" ++ Pipecost.name m ++ "' to save ~"
                       ++ fformat 1 pct ++ "%" |} ])%list
          else Ok findings
    end.

Definition detect_zombies (models : list Pipecost.Model)
    (queries : list (QueryRecord F)) : result (list (Finding F)) :=
  let '(cm, total) := _cost_map queries in
  findings <- for_each (zombie_step cm total) models [] ;;
  Ok (sorted by_savings_desc findings).

(** [groups[q.model_name].append(q.start_time)] over a
    [defaultdict(list)]. *)
Definition group_times (queries : list (QueryRecord F))
  : Dict.t (list Pipecost.datetime) :=
  fold_left
    (fun groups q =>
       Dict.set groups (model_name q)
                (Dict.get groups (model_name q) [] ++ [start_time q])%list)
    queries [].

(** [(ts[i + 1] - ts[i]).total_seconds() / 3600] for [i] in
    [range(len(ts) - 1)]. *)
Definition intervals (ts : list Pipecost.datetime) : list F :=
  map (fun i =>
         fdiv (total_seconds (nth (i + 1) ts 0 - nth i ts 0)%Z)
              (of_int 3600))
      (seq 0 (List.length ts - 1)).

Definition over_schedule_step (cm : Dict.t F) (total : F)
    (findings : list (Finding F))
    (item : string * list Pipecost.datetime)
  : result (list (Finding F)) :=
  let '(nm, times) := item in
  if (List.length times <? 3)%nat then Ok findings
  else
    let ts := sorted Z.leb times in
    let intervals_h := intervals ts in
    avg_h <- divide (fsum intervals_h)
                    (of_int (Z.of_nat (List.length intervals_h))) ;;
    if fle avg_h (of_int 4) then
      runs_day <- divide (of_int 24) (fmax avg_h (literal (1 # 10))) ;;
      share <- divide (fmul (Dict.get cm nm (of_int 0)) (literal (3 # 4)))
                      total ;;
      let sav := fmul share (of_int 100) in
      let sev := if fle avg_h (of_int 1) then "critical" else "warning" in
      Ok (findings ++
          [ {| category := "over_schedule"; severity := sev; model := nm;
               detail := "Every " ++ fformat 1 avg_h ++ "h ("
                         ++ fformat 0 runs_day ++ "x/day), "
                         ++ fformat 1 (Dict.get cm nm (of_int 0))
                         ++ " credits";
               estimated_savings_pct := fround sav 1;
               recommendation :=
                 "Reduce to every "
                 ++ fformat 0 (fmax (fmul avg_h (of_int 4)) (of_int 6))
                 ++ "h + incremental" |} ])%list
    else Ok findings.

Definition detect_over_scheduling (models : list Pipecost.Model)
    (queries : list (QueryRecord F)) : result (list (Finding F)) :=
  let groups := group_times queries in
  let '(cm, total) := _cost_map queries in
  findings <- for_each (over_schedule_step cm total) (Dict.items groups) [] ;;
  Ok (sorted by_savings_desc findings).

End Detectors.

End PipecostFloat.

(** ** JSON values as [json.load] returns them *)

Inductive json : Type :=
| JNull
| JBool (b : bool)
| JInt (z : Z)
| JFloat (q : Q)
| JStr (s : string)
| JArr (items : list json)
| JObj (fields : list (string * json)).

(** ** snowflake_parser.py *)

Module SnowflakeParser.

(** A normalised query record: the dict [parse_query_history] builds. *)
Record Query : Type := mkQuery {
  query_id : string;
  query_text : string;
  warehouse_name : string;
  bytes_scanned : Z;
  credits_used : Q;
  execution_time : Z;
  start_time : string
}.

(** An entry of [CostAttribution.queries]; its keys in the source are
    [query_id], [credits_share] and [start_time]. *)
Record Event : Type := mkEvent {
  event_query_id : string;
  credits_share : Q;
  event_start_time : string
}.

Record CostAttribution : Type := mkCostAttribution {
  model_name : string;
  total_credits : Q;
  query_count : Z;
  total_bytes_scanned : Z;
  avg_execution_time : Q;
  warehouses : list string;
  queries : list Event
}.

(** [CostAttribution(model_name=nm)] *)
Definition new_attribution (nm : string) : CostAttribution :=
  mkCostAttribution nm 0 0 0 0 [] [].

(** *** parse_query_history *)

Section Conversions.

(** What the interpreter's [int(s)] and [float(s)] make of a text
    ([None]: they raise [ValueError]) and what [str] prints for a value
    that is not a string. *)
Variable int_of_str : string -> option Z.
Variable float_of_str : string -> option Q.
Variable repr : json -> string.

(** [str(v)] *)
Definition py_str (v : json) : string :=
  match v with
  | JStr s => s
  | _ => repr v
  end.

(** [int(v)] *)
Definition py_int (v : json) : result Z :=
  match v with
  | JInt z => Ok z
  | JFloat q => Ok (Qtrunc q)
  | JBool b => Ok (if b then 1 else 0)%Z
  | JStr s =>
      match int_of_str s with
      | Some z => Ok z
      | None => Raise (ValueError "invalid literal for int()")
      end
  | JNull | JArr _ | JObj _ => Raise TypeError
  end.

(** [float(v)] *)
Definition py_float (v : json) : result Q :=
  match v with
  | JInt z =>
      match float_of_int z with
      | Some q => Ok q
      | None => Raise OverflowError
      end
  | JFloat q => Ok q
  | JBool b => Ok (if b then 1 else 0)
  | JStr s =>
      match float_of_str s with
      | Some q => Ok q
      | None => Raise (ValueError "could not convert string to float")
      end
  | JNull | JArr _ | JObj _ => Raise TypeError
  end.

(** [row.get(key, default)]: only a dict has a [get]. *)
Definition row_get (row : json) (key : string) (default : json)
  : result json :=
  match row with
  | JObj fields => Ok (Dict.get fields key default)
  | _ => Raise AttributeError
  end.

(** [row.get(UPPER, row.get(lower, default))]; the inner call is
    evaluated first. *)
Definition field (row : json) (upper lower : string) (default : json)
  : result json :=
  fallback <- row_get row lower default ;;
  row_get row upper fallback.

(** The dict appended for one row, its entries evaluated in order. *)
Definition normalize_row (row : json) : result Query :=
  qid <- field row "QUERY_ID" "query_id" (JStr "") ;;
  text <- field row "QUERY_TEXT" "query_text" (JStr "") ;;
  wh <- field row "WAREHOUSE_NAME" "warehouse_name" (JStr "") ;;
  bytes_v <- field row "BYTES_SCANNED" "bytes_scanned" (JInt 0) ;;
  bytes <- py_int bytes_v ;;
  credits_v <- field row "CREDITS_USED" "credits_used" (JFloat 0) ;;
  credits <- py_float credits_v ;;
  time_v <- field row "EXECUTION_TIME" "execution_time" (JInt 0) ;;
  time <- py_int time_v ;;
  start <- field row "START_TIME" "start_time" (JStr "") ;;
  Ok {| query_id := py_str qid;
        query_text := py_str text;
        warehouse_name := py_str wh;
        bytes_scanned := bytes;
        credits_used := credits;
        execution_time := time;
        start_time := py_str start |}.

(** [raw] is the value [json.load] returned for the file. *)
Definition parse_query_history (raw : json) : result (list Query) :=
  match raw with
  | JArr rows =>
      for_each
        (fun results row =>
           q <- normalize_row row ;; Ok (results ++ [q])%list)
        rows []
  | _ => Raise (ValueError "Expected a JSON array of query records")
  end.

End Conversions.

(** *** What the interpreter knows about characters

    [str.lower] and the class [\w] of [re] follow the Unicode database.
    The code that uses them takes them as parameters, [lower] and
    [is_word_char]; on ASCII text they are these two functions. *)

Definition ascii_lower_char (c : ascii) : ascii :=
  let n := nat_of_ascii c in
  if ((65 <=? n) && (n <=? 90))%nat then ascii_of_nat (n + 32) else c.

Fixpoint ascii_lower (s : string) : string :=
  match s with
  | EmptyString => EmptyString
  | String c s' => String (ascii_lower_char c) (ascii_lower s')
  end.

Definition ascii_word (c : ascii) : bool :=
  let n := nat_of_ascii c in
  ((48 <=? n) && (n <=? 57) || (65 <=? n) && (n <=? 90)
   || (97 <=? n) && (n <=? 122) || (n =? 95))%nat.

Section Text.

(** [s.lower()] *)
Variable lower : string -> string.

(** Membership of the class [\w]. *)
Variable is_word_char : ascii -> bool.

(** *** _extract_model_names_from_manifest *)

(** Truthiness of [node.get("alias")] and the like: present and not
    empty. *)
Definition truthy (o : option string) : option string :=
  match o with
  | Some s => if String.eqb s "" then None else Some s
  | None => None
  end.

Definition extract_step (model_map : Dict.t string)
    (item : string * Manifest.Node) : result (Dict.t string) :=
  let node := snd item in
  if Manifest.not_a_model node then Ok model_map
  else
    match Manifest.name node with
    | None => Raise (KeyError "name")
    | Some name =>
        let m1 := Dict.set model_map (lower name) name in
        let alias :=
          match truthy (Manifest.alias node) with
          | Some a => if String.eqb (lower a) (lower name) then None else Some a
          | None => None
          end in
        let m2 :=
          match alias with
          | Some a => Dict.set m1 (lower a) name
          | None => m1
          end in
        match truthy (Manifest.schema node) with
        | None => Ok m2
        | Some schema =>
            let m3 := Dict.set m2 (lower schema ++ "." ++ lower name) name in
            match alias with
            | Some a => Ok (Dict.set m3 (lower schema ++ "." ++ lower a) name)
            | None => Ok m3
            end
        end
    end.

Definition _extract_model_names_from_manifest (dbt_manifest : Manifest.t)
  : result (Dict.t string) :=
  for_each extract_step (Manifest.node_items dbt_manifest) [].

(** *** _match_query_to_models *)

Definition word_at (s : string) (p : nat) : bool :=
  match String.get p s with
  | Some c => is_word_char c
  | None => false
  end.

(** [\b] at position [p]: exactly one of the characters on either side
    of the position is a word character; beyond the ends there is none. *)
Definition boundary (s : string) (p : nat) : bool :=
  xorb (match p with O => false | S p' => word_at s p' end) (word_at s p).

(** The literal [pattern] stands at position [i] of [s]. *)
Definition occurs_at (pattern s : string) (i : nat) : bool :=
  ((i + String.length pattern <=? String.length s)%nat
   && String.eqb (substring i (String.length pattern) s) pattern).

(** [\b] + [re.escape(pattern)] + [\b] matches at position [i]. *)
Definition match_at (pattern s : string) (i : nat) : bool :=
  boundary s i && occurs_at pattern s i
  && boundary s (i + String.length pattern).

(** [re.search(r"\b" + re.escape(pattern) + r"\b", s)] finds a match. *)
Definition re_search_word (pattern s : string) : bool :=
  existsb (match_at pattern s) (seq 0 (S (String.length s))).

(** Sort key [lambda x: -len(x[0])]. *)
Definition longest_first (x y : string * string) : bool :=
  (String.length (fst y) <=? String.length (fst x))%nat.

(** [matched.add(nm)] on a set kept as a duplicate-free list. *)
Definition set_add (nm : string) (matched : list string) : list string :=
  if existsb (String.eqb nm) matched then matched else (matched ++ [nm])%list.

Definition _match_query_to_models (query_text : string)
    (model_map : Dict.t string) : list string :=
  let query_lower := lower query_text in
  let matched :=
    fold_left
      (fun matched item =>
         if re_search_word (fst item) query_lower
         then set_add (snd item) matched else matched)
      (sorted longest_first (Dict.items model_map)) [] in
  sorted String.leb matched.

(** *** CostAttribution.to_dict *)




(** *** attribute_cost_to_model *)

Definition attribute_to (q : Query) (share : Q)
    (state : Dict.t CostAttribution * Dict.t (list Z)) (nm : string)
  : Dict.t CostAttribution * Dict.t (list Z) :=
  let '(attributions, exec_times) := state in
  let attributions :=
    if Dict.mem attributions nm then attributions
    else Dict.set attributions nm (new_attribution nm) in
  let attr := Dict.get attributions nm (new_attribution nm) in
  let attr :=
    {| model_name := model_name attr;
       total_credits := total_credits attr + credits_used q * share;
       query_count := (query_count attr + 1)%Z;
       total_bytes_scanned :=
         (total_bytes_scanned attr
          + Qtrunc (inject_Z (bytes_scanned q) * share))%Z;
       avg_execution_time := avg_execution_time attr;
       warehouses :=
         if String.eqb (warehouse_name q) "" then warehouses attr
         else (warehouses attr ++ [warehouse_name q])%list;
       queries :=
         (queries attr ++
          [ {| event_query_id := query_id q;
               credits_share := round (credits_used q * share) 6;
               event_start_time := start_time q |} ])%list |} in
  (Dict.set attributions nm attr,
   Dict.set exec_times nm (Dict.get exec_times nm [] ++ [execution_time q])%list).

(** The models one query is charged to. *)
Definition matched_models (model_map : Dict.t string) (q : Query)
  : list string :=
  match _match_query_to_models (query_text q) model_map with
  | [] => ["__unattributed__"]
  | l => l
  end.

Definition attribute_query (model_map : Dict.t string)
    (state : Dict.t CostAttribution * Dict.t (list Z)) (q : Query)
  : result (Dict.t CostAttribution * Dict.t (list Z)) :=
  let models := matched_models model_map q in
  share <- truediv 1 (inject_Z (Z.of_nat (List.length models))) ;;
  Ok (fold_left (attribute_to q share) models state).

(** Last loop: the mean execution time of each model's queries. *)
Definition average_step (attributions : Dict.t CostAttribution)
    (item : string * list Z) : result (Dict.t CostAttribution) :=
  let '(nm, times) := item in
  match Dict.lookup attributions nm, times with
  | Some attr, _ :: _ =>
      avg <- truediv (inject_Z (Zsum times))
                     (inject_Z (Z.of_nat (List.length times))) ;;
      Ok (Dict.set attributions nm
            {| model_name := model_name attr;
               total_credits := total_credits attr;
               query_count := query_count attr;
               total_bytes_scanned := total_bytes_scanned attr;
               avg_execution_time := avg;
               warehouses := warehouses attr;
               queries := queries attr |})
  | _, _ => Ok attributions
  end.

Definition attribute_cost_to_model (qs : list Query)
    (dbt_manifest : Manifest.t) : result (Dict.t CostAttribution) :=
  model_map <- _extract_model_names_from_manifest dbt_manifest ;;
  state <- for_each (attribute_query model_map) qs ([], []) ;;
  for_each average_step (Dict.items (snd state)) (fst state).

End Text.

(** *** calculate_monthly_breakdown *)

Record TopModel : Type := mkTopModel {
  model : string;
  credits : Q;
  pct : Q
}.

(** A value of [result["months"]]; [month_credits] is its key
    ["total_credits"]. *)
Record Month : Type := mkMonth {
  month_credits : Q;
  top_models : list TopModel
}.

(** The returned dict; [all_credits] is its key ["total_credits"]. *)
Record Breakdown : Type := mkBreakdown {
  all_credits : Q;
  months : Dict.t Month
}.

(** [s.replace("Z", "+00:00")] *)
Fixpoint replace_Z (s : string) : string :=
  match s with
  | EmptyString => EmptyString
  | String c s' =>
      if Ascii.eqb c "Z"%char then "+00:00" ++ replace_Z s'
      else String c (replace_Z s')
  end.

Section Calendar.

(** [datetime.fromisoformat] ([None]: it raises [ValueError], which the
    [except] clause catches) and [datetime.strftime]. *)
Variable fromisoformat : string -> option Pipecost.datetime.
Variable strftime : Pipecost.datetime -> string -> string.

(** The [if not start ... try ... except] block. *)
Definition month_key (start : string) : string :=
  if String.eqb start "" then "unknown"
  else
    match fromisoformat (replace_Z start) with
    | Some dt => strftime dt "%Y-%m"
    | None => "unknown"
    end.

(** [monthly[month_key][model_name] += q["credits_share"]] for the
    events of one attribution. *)
Definition bucket_events (monthly : Dict.t (Dict.t Q))
    (item : string * CostAttribution) : Dict.t (Dict.t Q) :=
  fold_left
    (fun monthly ev =>
       let key := month_key (event_start_time ev) in
       let in_month := Dict.get monthly key [] in
       Dict.set monthly key
         (Dict.set in_month (fst item)
            (Dict.get in_month (fst item) 0 + credits_share ev)))
    (queries (snd item)) monthly.

Definition monthly_buckets (attributions : Dict.t CostAttribution)
  : Dict.t (Dict.t Q) :=
  fold_left bucket_events (Dict.items attributions) [].

(** Sort key [lambda x: -x[1]]. *)
Definition by_credits_desc (x y : string * Q) : bool :=
  Qle_bool (- snd x) (- snd y).

(** The entry of one month. *)
Definition month_entry (top_n : Z) (models_in_month : Dict.t Q)
  : result Month :=
  let month_total := Qsum (Dict.values models_in_month) in
  let ranked :=
    slice_to top_n (sorted by_credits_desc (Dict.items models_in_month)) in
  tops <- comprehension
            (fun nc =>
               p <- (if Qlt_bool 0 month_total
                     then share <- truediv (snd nc) month_total ;;
                          Ok (share * 100)
                     else Ok 0) ;;
               Ok {| model := fst nc;
                     credits := round (snd nc) 4;
                     pct := round p 2 |})
            ranked ;;
  Ok {| month_credits := round month_total 4; top_models := tops |}.

Definition calculate_monthly_breakdown
    (attributions : Dict.t CostAttribution) (top_n : Z)
  : result Breakdown :=
  let monthly := monthly_buckets attributions in
  let total := Qsum (map total_credits (Dict.values attributions)) in
  months <- for_each
              (fun months key =>
                 entry <- month_entry top_n (Dict.get monthly key []) ;;
                 Ok (Dict.set months key entry))
              (sorted String.leb (Dict.keys monthly)) [] ;;
  Ok {| all_credits := round total 4; months := months |}.

End Calendar.

End SnowflakeParser.

(** ** Vocabulary of the specification *)

(** What one iteration of an appending loop adds to an empty list. *)
Definition emitted {A B : Type} (body : list B -> A -> result (list B)) (x : A)
  : list B :=
  match body [] x with
  | Ok l => l
  | Raise _ => []
  end.

(** A list is in descending order of [key]: every earlier position holds a
    key at least as large as every later one. *)
Definition descending {A : Type} (key : A -> Q) (l : list A) : Prop :=
  forall i j a b,
    (i < j)%nat -> nth_error l i = Some a -> nth_error l j = Some b ->
    key b <= key a.

(** The order a sort key induces, as a relation. *)
Definition ordered {A : Type} (le : A -> A -> bool) (a b : A) : Prop :=
  le a b = true.


(** [z] tenths, hundredths, ... *)
Definition decimal (n : nat) (q : Q) : Prop :=
  exists z : Z, q == inject_Z z / pow10 n.

Module PipecostSpec.

Import Pipecost.

(** The data model's usage events carry non-negative credits. *)
Definition nonneg_credits (queries : list QueryRecord) : Prop :=
  Forall (fun q => 0 <= credits_used q) queries.

Definition events_of (nm : string) (queries : list QueryRecord)
  : list QueryRecord :=
  filter (fun q => String.eqb (model_name q) nm) queries.

(** Credits attributed to a unit: those of the events that name it. *)
Definition credits_of (nm : string) (queries : list QueryRecord) : Q :=
  Qsum (map credits_used (events_of nm queries)).

(** Total credits of all events. *)
Definition all_credits (queries : list QueryRecord) : Q :=
  Qsum (map credits_used queries).

(** A unit's share of the total, as a percentage. *)
Definition cost_pct (nm : string) (queries : list QueryRecord) : Q :=
  credits_of nm queries / all_credits queries * 100.

Definition times_of (nm : string) (queries : list QueryRecord)
  : list datetime :=
  map start_time (events_of nm queries).

(** Mean of the consecutive gaps between the sorted timestamps, in
    hours. *)
Definition avg_gap_hours (times : list datetime) : Q :=
  let intervals := map hours (gaps (sorted Z.leb times)) in
  Qsum intervals / inject_Z (Z.of_nat (List.length intervals)).


(** Same unit, possibly with more downstream edges. *)
Definition same_unit (m m0 : Model) : Prop :=
  name m = name m0 /\ upstream m = upstream m0.

(** Every downstream edge of [store] inverts an upstream declaration of
    one of [models]. *)
Definition edges_inverted (models store : list Model) : Prop :=
  forall m d,
    In m store -> In d (downstream m) ->
    exists m', In m' models /\ name m' = d /\ In (name m) (upstream m').








(** The credits of a group of units, and what keeping one unit of the
    group would save: [(n - 1) / n] of them, as a percentage of all
    credits. *)
Definition group_credits (names : list string) (queries : list QueryRecord)
  : Q :=
  Qsum (map (fun nm => credits_of nm queries) names).

Definition group_savings (names : list string) (queries : list QueryRecord)
  : Q :=
  let n := inject_Z (Z.of_nat (List.length names)) in
  group_credits names queries * (n - 1) / n / all_credits queries * 100.


(** [cost * (n - 1) / n / total * 100] for a group of [n] names. *)
Definition redundant_savings (cm : Dict.t Q) (total : Q)
    (names : list string) : Q :=
  let n := inject_Z (Z.of_nat (List.length names)) in
  Qsum (map (fun nm => Dict.get cm nm 0) names) * (n - 1) / n / total * 100.

End PipecostSpec.

Module PipecostFloatSpec.

Import PipecostFloat.

Section Detectors.

Context {F : Type} {fl : Floats F}.

Definition events_of (nm : string) (queries : list (QueryRecord F))
  : list (QueryRecord F) :=
  filter (fun q => String.eqb (model_name q) nm) queries.

(** Credits attributed to a unit: those of the events that name it,
    added to [0.0] one after the other, in the order of the events. *)
Definition credits_of (nm : string) (queries : list (QueryRecord F)) : F :=
  fold_left fadd (map credits_used (events_of nm queries)) (literal 0).

(** The units the events name, each once, in the order in which they
    first appear. *)
Fixpoint units (queries : list (QueryRecord F)) : list string :=
  match queries with
  | [] => []
  | q :: rest =>
      model_name q
      :: filter (fun nm => negb (String.eqb (model_name q) nm)) (units rest)
  end.

(** Total credits of all events: the sum of the units' credits, or
    [1.0] when that is zero. *)
Definition all_credits (queries : list (QueryRecord F)) : F :=
  let s := fsum (map (fun nm => credits_of nm queries) (units queries)) in
  if is_zero s then literal 1 else s.

(** A unit's credits over the total, times 100. *)
Definition cost_pct (nm : string) (queries : list (QueryRecord F)) : F :=
  fmul (fdiv (credits_of nm queries) (all_credits queries)) (of_int 100).

Definition times_of (nm : string) (queries : list (QueryRecord F))
  : list Pipecost.datetime :=
  map start_time (events_of nm queries).

Definition gap_hours (earlier later : Pipecost.datetime) : F :=
  fdiv (total_seconds (later - earlier)%Z) (of_int 3600).

(** The gaps between each timestamp and the next. *)
Fixpoint consecutive_gaps (ts : list Pipecost.datetime) : list F :=
  match ts with
  | a :: (b :: _) as rest => gap_hours a b :: consecutive_gaps rest
  | _ => []
  end.

(** Mean of the consecutive gaps between the sorted timestamps, in
    hours. *)
Definition mean_gap (times : list Pipecost.datetime) : F :=
  let gs := consecutive_gaps (sorted Z.leb times) in
  fdiv (fsum gs) (of_int (Z.of_nat (List.length gs))).

(** What the over-scheduling detector reports as savings, before
    rounding: the unit's credits times [0.75], over the total, times
    100. *)
Definition savings_of (nm : string) (queries : list (QueryRecord F)) : F :=
  fmul (fdiv (fmul (credits_of nm queries) (literal (3 # 4)))
             (all_credits queries))
       (of_int 100).

End Detectors.

End PipecostFloatSpec.

Module SnowflakeSpec.

Import SnowflakeParser.

(** The value [row.get(UPPER, row.get(lower, default))] reads. *)
Definition pick (fields : Dict.t json) (upper lower : string) (default : json)
  : json :=
  Dict.get fields upper (Dict.get fields lower default).

(** Neither spelling of a key is present. *)
Definition absent (fields : Dict.t json) (upper lower : string) : Prop :=
  Dict.mem fields upper = false /\ Dict.mem fields lower = false.

(** Values [int()] and [float()] accept: numbers, booleans and the texts
    the interpreter can read as a number; [float()] accepts an integer
    only below the largest float's rounding limit. *)
Definition int_like (int_of_str : string -> option Z) (v : json) : Prop :=
  match v with
  | JInt _ | JFloat _ | JBool _ => True
  | JStr s => int_of_str s <> None
  | JNull | JArr _ | JObj _ => False
  end.

Definition float_like (float_of_str : string -> option Q) (v : json) : Prop :=
  match v with
  | JInt z => (Z.abs z < 2 ^ 1024 - 2 ^ 970)%Z
  | JFloat _ | JBool _ => True
  | JStr s => float_of_str s <> None
  | JNull | JArr _ | JObj _ => False
  end.

(** A row is an object whose numeric fields, where present, can be
    converted. *)
Definition well_formed_row (int_of_str : string -> option Z)
    (float_of_str : string -> option Q) (row : json) : Prop :=
  exists fields,
    row = JObj fields
    /\ int_like int_of_str (pick fields "BYTES_SCANNED" "bytes_scanned" (JInt 0))
    /\ float_like float_of_str
         (pick fields "CREDITS_USED" "credits_used" (JFloat 0))
    /\ int_like int_of_str
         (pick fields "EXECUTION_TIME" "execution_time" (JInt 0)).

Definition is_array (raw : json) : Prop := exists rows, raw = JArr rows.

(** The record [normalize_row] builds for an object: every field is read
    through [pick] and converted. *)
Definition normalized (int_of_str : string -> option Z)
    (float_of_str : string -> option Q) (repr : json -> string)
    (row : json) (q : Query) : Prop :=
  exists fields,
    row = JObj fields
    /\ query_id q = py_str repr (pick fields "QUERY_ID" "query_id" (JStr ""))
    /\ query_text q
       = py_str repr (pick fields "QUERY_TEXT" "query_text" (JStr ""))
    /\ warehouse_name q
       = py_str repr (pick fields "WAREHOUSE_NAME" "warehouse_name" (JStr ""))
    /\ py_int int_of_str (pick fields "BYTES_SCANNED" "bytes_scanned" (JInt 0))
       = Ok (bytes_scanned q)
    /\ py_float float_of_str
                (pick fields "CREDITS_USED" "credits_used" (JFloat 0))
       = Ok (credits_used q)
    /\ py_int int_of_str
              (pick fields "EXECUTION_TIME" "execution_time" (JInt 0))
       = Ok (execution_time q)
    /\ start_time q
       = py_str repr (pick fields "START_TIME" "start_time" (JStr "")).

Definition not_an_array : exn :=
  ValueError "Expected a JSON array of query records".

Section Text.

Variable lower : string -> string.
Variable is_word_char : ascii -> bool.

(** [pattern] is one of the patterns [node] is known by: its name, its
    alias, or either of them qualified by its schema, in lower case. *)
Definition designates (node : Manifest.Node) (pattern : string) : Prop :=
  exists nm,
    Manifest.name node = Some nm
    /\ (pattern = lower nm
        \/ (exists a, Manifest.alias node = Some a /\ pattern = lower a)
        \/ (exists s,
              Manifest.schema node = Some s
              /\ pattern = lower s ++ "." ++ lower nm)
        \/ (exists s a,
              Manifest.schema node = Some s /\ Manifest.alias node = Some a
              /\ pattern = lower s ++ "." ++ lower a)).

(** The text ends with a word character. *)
Fixpoint ends_with_word (s : string) : bool :=
  match s with
  | EmptyString => false
  | String c EmptyString => is_word_char c
  | String _ s' => ends_with_word s'
  end.

(** The text starts with a word character. *)
Definition starts_with_word (s : string) : bool :=
  match s with
  | EmptyString => false
  | String c _ => is_word_char c
  end.

(** A word boundary lies between [left] and [right], two adjacent
    parts of a text: there is a word character on exactly one side of
    the cut. *)
Definition word_boundary (left right : string) : Prop :=
  ends_with_word left <> starts_with_word right.

(** [pattern] occurs in [s] delimited by word boundaries. *)
Definition stands_alone (pattern s : string) : Prop :=
  exists before after,
    s = before ++ pattern ++ after
    /\ word_boundary before (pattern ++ after)
    /\ word_boundary (before ++ pattern) after.

(** The occurrence of [pattern] between [before] and [after] is part
    of a longer identifier: the identifier goes on after it, or started
    before it. *)
Definition inside_identifier (before pattern after : string) : Prop :=
  (ends_with_word pattern = true /\ starts_with_word after = true)
  \/ (ends_with_word before = true /\ starts_with_word pattern = true).

Definition charged (model_map : Dict.t string) (nm : string) (q : Query)
  : bool :=
  existsb (String.eqb nm) (matched_models lower is_word_char model_map q).

(** The part of a query's credits that goes to [nm]: an even share
    when [nm] is one of the [N] models charged, nothing otherwise. *)
Definition share_of (model_map : Dict.t string) (nm : string) (q : Query)
  : Q :=
  if charged model_map nm q
  then credits_used q
       / inject_Z
           (Z.of_nat
              (List.length
                 (matched_models lower is_word_char model_map q)))
  else 0.

Definition hit (model_map : Dict.t string) (nm : string) (q : Query) : Z :=
  if charged model_map nm q then 1%Z else 0%Z.

End Text.

Section Calendar.

Variable fromisoformat : string -> option Pipecost.datetime.
Variable strftime : Pipecost.datetime -> string -> string.

(** The timestamp a start time denotes, every [Z] in it read as the
    offset [+00:00]; none for the empty text and for text that is no
    ISO-8601 timestamp. *)
Definition parsed (start : string) : option Pipecost.datetime :=
  if String.eqb start "" then None else fromisoformat (replace_Z start).

(** The month an event with that start time is counted in. *)
Definition month_of (start : string) : string :=
  match parsed start with
  | Some dt => strftime dt "%Y-%m"
  | None => "unknown"
  end.

(** The events counted in the month [key], each with the model it is
    attributed to. *)
Definition events_in (key : string) (attributions : Dict.t CostAttribution)
  : list (string * Event) :=
  flat_map
    (fun item =>
       map (pair (fst item))
           (filter
              (fun ev => String.eqb (month_of (event_start_time ev)) key)
              (queries (snd item))))
    (Dict.items attributions).

(** The credits of the month [key]. *)
Definition credits_in (key : string) (attributions : Dict.t CostAttribution)
  : Q :=
  Qsum (map (fun e => credits_share (snd e)) (events_in key attributions)).

End Calendar.

(** What [attributions] holds for [nm]: the credits and the number of
    queries charged to it; nothing for a name without an entry. *)
Definition charged_credits (attributions : Dict.t CostAttribution)
    (nm : string) : Q :=
  total_credits (Dict.get attributions nm (new_attribution nm)).

Definition charged_queries (attributions : Dict.t CostAttribution)
    (nm : string) : Z :=
  query_count (Dict.get attributions nm (new_attribution nm)).

(** Summed credits of all attributions. *)
Definition attributed_credits (attributions : Dict.t CostAttribution) : Q :=
  Qsum (map total_credits (Dict.values attributions)).

End SnowflakeSpec.
(* ================================================================== *)
(** * Part II: properties *)
(* ================================================================== *)

Open Scope list_scope.

(** ** The runtime *)

Lemma truediv_ok (x y : Q) : ~ y == 0 -> truediv x y = Ok (x / y).
Proof.
  intros H. unfold truediv.
  destruct (Qeq_bool y 0) eqn:E; [ | reflexivity ].
  apply Qeq_bool_eq in E. contradiction.
Qed.

Lemma Qlt_bool_iff (x y : Q) : Qlt_bool x y = true <-> x < y.
Proof.
  unfold Qlt_bool. rewrite negb_true_iff.
  split; intros H.
  - apply Qnot_le_lt. intros L. apply Qle_bool_iff in L. congruence.
  - destruct (Qle_bool y x) eqn:E; [ | reflexivity ].
    apply Qle_bool_iff in E. apply Qlt_not_le in H. contradiction.
Qed.

Lemma Qle_bool_false (x y : Q) : Qle_bool x y = false <-> y < x.
Proof.
  rewrite <- Qlt_bool_iff. unfold Qlt_bool.
  destruct (Qle_bool x y); simpl; intuition congruence.
Qed.

Lemma inject_nat_nonzero (n : nat) :
  (0 < n)%nat -> ~ inject_Z (Z.of_nat n) == 0.
Proof.
  intros H E. unfold Qeq in E. simpl in E. lia.
Qed.

Lemma pow10_pos (n : nat) : 0 < pow10 n.
Proof.
  unfold pow10, Qlt. simpl. rewrite Z.mul_1_r.
  apply Z.pow_pos_nonneg; lia.
Qed.

Lemma pow10_nonzero (n : nat) : ~ pow10 n == 0.
Proof.
  intros E. pose proof (pow10_pos n) as H. rewrite E in H.
  apply Qlt_irrefl in H. exact H.
Qed.

Lemma round_half_even_comp : Proper (Qeq ==> eq) round_half_even.
Proof.
  intros x y E. unfold round_half_even.
  rewrite (Qfloor_comp x y E).
  assert (C : Qcompare (x - inject_Z (Qfloor y)) (1 # 2)
              = Qcompare (y - inject_Z (Qfloor y)) (1 # 2)).
  { apply Qcompare_comp; [ rewrite E | ]; reflexivity. }
  rewrite C. reflexivity.
Qed.

Lemma round_half_even_Z (z : Z) : round_half_even (inject_Z z) = z.
Proof.
  unfold round_half_even. rewrite Qfloor_Z.
  destruct (Qcompare_spec (inject_Z z - inject_Z z) (1 # 2)) as [E | L | G];
    [ exfalso; lra | reflexivity | exfalso; lra ].
Qed.

Lemma round_half_even_le (q : Q) (z : Z) :
  q <= inject_Z z -> (round_half_even q <= z)%Z.
Proof.
  intros H. unfold round_half_even.
  pose proof (Qfloor_le q) as Fl.
  assert (Fz : (Qfloor q <= z)%Z).
  { rewrite <- (Qfloor_Z z). apply Qfloor_resp_le. exact H. }
  destruct (Z.eq_dec (Qfloor q) z) as [E | N].
  - rewrite E in *.
    destruct (Qcompare_spec (q - inject_Z z) (1 # 2)) as [E' | L | G];
      [ exfalso; lra | lia | exfalso; lra ].
  - destruct (Qcompare _ _); [ destruct (Z.even _) | | ]; lia.
Qed.

(** Rounding moves a number by at most half a unit. *)
Lemma round_half_even_near (q : Q) :
  Qabs (inject_Z (round_half_even q) - q) <= 1 # 2.
Proof.
  unfold round_half_even.
  pose proof (Qfloor_le q) as Fl. pose proof (Qlt_floor q) as Fu.
  rewrite inject_Z_plus in Fu. change (inject_Z 1) with 1 in Fu.
  apply Qabs_Qle_condition.
  destruct (Qcompare_spec (q - inject_Z (Qfloor q)) (1 # 2)) as [ E | L | G ].
  - destruct (Z.even (Qfloor q)).
    + split; lra.
    + rewrite inject_Z_plus. change (inject_Z 1) with 1. split; lra.
  - split; lra.
  - rewrite inject_Z_plus. change (inject_Z 1) with 1. split; lra.
Qed.

Lemma round_near (q : Q) (n : nat) :
  Qabs (round q n - q) <= (1 # 2) / pow10 n.
Proof.
  unfold round.
  pose proof (round_half_even_near (q * pow10 n)) as H.
  apply Qabs_Qle_condition in H. destruct H as [H1 H2].
  pose proof (pow10_pos n) as P.
  assert (I : 0 < / pow10 n) by (apply Qinv_lt_0_compat; exact P).
  setoid_replace (inject_Z (round_half_even (q * pow10 n)) / pow10 n - q)
    with ((inject_Z (round_half_even (q * pow10 n)) - q * pow10 n) * / pow10 n)
    by (field; apply pow10_nonzero).
  apply Qabs_Qle_condition. unfold Qdiv. split.
  - setoid_replace (- ((1 # 2) * / pow10 n)) with ((- (1 # 2)) * / pow10 n)
      by ring.
    apply Qmult_le_compat_r; lra.
  - apply Qmult_le_compat_r; lra.
Qed.

Lemma round_comp (n : nat) : Proper (Qeq ==> eq) (fun q => round q n).
Proof.
  intros x y E. unfold round.
  assert (R : round_half_even (x * pow10 n) = round_half_even (y * pow10 n)).
  { apply round_half_even_comp. rewrite E. reflexivity. }
  rewrite R. reflexivity.
Qed.

Lemma round_eq (n : nat) (x y : Q) : x == y -> round x n = round y n.
Proof. intros E. apply (round_comp n). exact E. Qed.

Lemma round_is_decimal (q : Q) (n : nat) : decimal n (round q n).
Proof. exists (round_half_even (q * pow10 n)). reflexivity. Qed.

Lemma round_decimal (q : Q) (n : nat) : decimal n q -> round q n == q.
Proof.
  intros [z E]. unfold round.
  assert (R : round_half_even (q * pow10 n) = z).
  { rewrite <- (round_half_even_Z z). apply round_half_even_comp.
    rewrite E. field. apply pow10_nonzero. }
  rewrite R. symmetry. exact E.
Qed.

Lemma round_le_decimal (q b : Q) (n : nat) :
  decimal n b -> q <= b -> round q n <= b.
Proof.
  intros [z E] H. unfold round. rewrite E.
  pose proof (pow10_pos n) as P.
  assert (L : (round_half_even (q * pow10 n) <= z)%Z).
  { apply round_half_even_le.
    setoid_replace (inject_Z z) with (inject_Z z / pow10 n * pow10 n)
      by (field; apply pow10_nonzero).
    rewrite <- E. apply Qmult_le_compat_r; [ exact H | apply Qlt_le_weak; exact P ]. }
  apply Qmult_le_compat_r.
  - rewrite <- Zle_Qle. exact L.
  - apply Qlt_le_weak. apply Qinv_lt_0_compat. exact P.
Qed.

Lemma decimal_plus (n : nat) (x y : Q) :
  decimal n x -> decimal n y -> decimal n (x + y).
Proof.
  intros [a Ea] [b Eb]. exists (a + b)%Z.
  rewrite Ea, Eb, inject_Z_plus. field. apply pow10_nonzero.
Qed.

Lemma decimal_Qsum (n : nat) (l : list Q) :
  Forall (decimal n) l -> decimal n (Qsum l).
Proof.
  induction 1 as [ | x l Hx _ IH ]; simpl.
  - exists 0%Z. unfold Qdiv. rewrite Qmult_0_l. reflexivity.
  - apply decimal_plus; assumption.
Qed.

Lemma Qsum_app (l1 l2 : list Q) : Qsum (l1 ++ l2) == Qsum l1 + Qsum l2.
Proof.
  induction l1 as [ | x l1 IH ]; simpl; [ lra | rewrite IH; lra ].
Qed.

Lemma Qsum_nonneg (l : list Q) : Forall (fun x => 0 <= x) l -> 0 <= Qsum l.
Proof.
  induction 1 as [ | x l Hx _ IH ]; simpl; lra.
Qed.

(** ** Loops *)

Lemma for_each_collect {A B : Type} (body : list B -> A -> result (list B))
    (l : list A) :
  (forall x acc, In x l -> body acc x = Ok (acc ++ emitted body x)) ->
  forall acc, for_each body l acc = Ok (acc ++ flat_map (emitted body) l).
Proof.
  induction l as [ | x l IH ]; intros H acc; simpl.
  - rewrite app_nil_r. reflexivity.
  - rewrite (H x acc (or_introl eq_refl)). simpl.
    rewrite IH by (intros y a Hy; apply H; right; exact Hy).
    rewrite app_assoc. reflexivity.
Qed.

Lemma for_each_total {A S : Type} (body : S -> A -> result S) (l : list A) :
  (forall x s, In x l -> exists s', body s x = Ok s') ->
  forall s, exists s', for_each body l s = Ok s'.
Proof.
  induction l as [ | x l IH ]; intros H s; simpl.
  - eexists. reflexivity.
  - destruct (H x s (or_introl eq_refl)) as [s' E]. rewrite E. simpl.
    apply IH. intros y t Hy. apply H. right. exact Hy.
Qed.

(** An invariant of the accumulator carries through a loop that ends. *)
Lemma for_each_invariant {A S : Type} (body : S -> A -> result S)
    (P : S -> Prop) (l : list A) :
  (forall x s s', In x l -> P s -> body s x = Ok s' -> P s') ->
  forall s s', P s -> for_each body l s = Ok s' -> P s'.
Proof.
  induction l as [ | x l IH ]; intros H s s' Ps E; simpl in E.
  - injection E as <-. exact Ps.
  - destruct (body s x) as [ s1 | e ] eqn:B; simpl in E; [ | discriminate ].
    apply (IH (fun y t t' Hy => H y t t' (or_intror Hy)) s1 s'); [ | exact E ].
    apply (H x s s1); [ left; reflexivity | exact Ps | exact B ].
Qed.

Lemma comprehension_total {A B : Type} (f : A -> result B) (l : list A) :
  (forall x, In x l -> exists y, f x = Ok y) ->
  exists ys, comprehension f l = Ok ys
             /\ Forall2 (fun x y => f x = Ok y) l ys.
Proof.
  induction l as [ | x l IH ]; intros H; simpl.
  - exists []. split; [ reflexivity | constructor ].
  - destruct (H x (or_introl eq_refl)) as [y E].
    destruct IH as [ys [Eys F]]; [ intros z Hz; apply H; right; exact Hz | ].
    exists (y :: ys). rewrite E, Eys. simpl. split; [ reflexivity | ].
    constructor; assumption.
Qed.

(** ** Sorting *)

Section Sorting.

Context {A : Type} (le : A -> A -> bool).

Lemma insert_sorted_perm (x : A) (l : list A) :
  Permutation (insert_sorted le x l) (x :: l).
Proof.
  induction l as [ | y l IH ]; simpl.
  - reflexivity.
  - destruct (le x y); [ reflexivity | ].
    rewrite IH. apply perm_swap.
Qed.

Lemma sorted_perm (l : list A) : Permutation (sorted le l) l.
Proof.
  induction l as [ | x l IH ]; simpl.
  - reflexivity.
  - rewrite insert_sorted_perm. constructor. exact IH.
Qed.

Lemma In_sorted (x : A) (l : list A) : In x (sorted le l) <-> In x l.
Proof.
  split; apply Permutation_in; [ | symmetry ]; apply sorted_perm.
Qed.

Lemma length_sorted (l : list A) : List.length (sorted le l) = List.length l.
Proof. apply Permutation_length, sorted_perm. Qed.

Hypothesis le_total : forall a b, le a b = true \/ le b a = true.
Hypothesis le_trans :
  forall a b c, le a b = true -> le b c = true -> le a c = true.

Lemma insert_sorted_ordered (x : A) (l : list A) :
  StronglySorted (ordered le) l -> StronglySorted (ordered le) (insert_sorted le x l).
Proof.
  induction 1 as [ | y l Hl IH Hy ]; simpl.
  - constructor; constructor.
  - destruct (le x y) eqn:E.
    + constructor; [ constructor; assumption | ].
      constructor; [ exact E | ].
      apply Forall_impl with (P := ordered le y); [ | exact Hy ].
      intros z Hz. apply (le_trans x y z); assumption.
    + constructor; [ exact IH | ].
      assert (F : Forall (ordered le y) (x :: l)).
      { constructor; [ | exact Hy ].
        destruct (le_total x y) as [ C | C ]; [ congruence | exact C ]. }
      rewrite Forall_forall in *. intros z Hz. apply F.
      apply (Permutation_in z (insert_sorted_perm x l)). exact Hz.
Qed.

Lemma sorted_ordered (l : list A) : StronglySorted (ordered le) (sorted le l).
Proof.
  induction l as [ | x l IH ]; simpl.
  - constructor.
  - apply insert_sorted_ordered. exact IH.
Qed.

Lemma ordered_nth (l : list A) :
  StronglySorted (ordered le) l ->
  forall i j a b,
    (i < j)%nat -> nth_error l i = Some a -> nth_error l j = Some b ->
    le a b = true.
Proof.
  induction 1 as [ | y l Hl IH Hy ]; intros i j a b Hij Ha Hb.
  - destruct i; discriminate.
  - destruct j as [ | j ]; [ lia | ]. simpl in Hb.
    destruct i as [ | i ]; simpl in Ha.
    + injection Ha as <-.
      rewrite Forall_forall in Hy. apply Hy.
      apply nth_error_In with (n := j). exact Hb.
    + apply (IH i j); [ lia | assumption | assumption ].
Qed.

End Sorting.

(** ** Dicts *)

Module DictFacts.

Import Dict.

Section Facts.

Context {V : Type}.
Implicit Types (d : Dict.t V) (k : string) (v : V).

Lemma lookup_set d k v k' :
  lookup (set d k v) k' = if String.eqb k k' then Some v else lookup d k'.
Proof.
  induction d as [ | [k0 v0] d IH ]; simpl.
  - reflexivity.
  - destruct (String.eqb k0 k) eqn:E; simpl.
    + apply String.eqb_eq in E. subst k0.
      destruct (String.eqb k k'); reflexivity.
    + destruct (String.eqb k0 k') eqn:E'; [ | exact IH ].
      apply String.eqb_eq in E'. subst k0.
      rewrite String.eqb_sym, E. reflexivity.
Qed.

Lemma get_set d k v k' default :
  get (set d k v) k' default
  = if String.eqb k k' then v else get d k' default.
Proof.
  unfold get. rewrite lookup_set. destruct (String.eqb k k'); reflexivity.
Qed.

Lemma mem_set d k v k' :
  mem (set d k v) k' = String.eqb k k' || mem d k'.
Proof.
  unfold mem. rewrite lookup_set. destruct (String.eqb k k'); reflexivity.
Qed.

Lemma lookup_In d k v : lookup d k = Some v -> In (k, v) d.
Proof.
  induction d as [ | [k0 v0] d IH ]; simpl; [ discriminate | ].
  destruct (String.eqb k0 k) eqn:E.
  - apply String.eqb_eq in E. intros [= ->]. left. congruence.
  - intros H. right. apply IH. exact H.
Qed.

Lemma lookup_None d k : lookup d k = None <-> ~ In k (keys d).
Proof.
  induction d as [ | [k0 v0] d IH ]; simpl.
  - intuition.
  - destruct (String.eqb k0 k) eqn:E.
    + apply String.eqb_eq in E. intuition discriminate.
    + apply String.eqb_neq in E. rewrite IH. intuition.
Qed.

Lemma In_lookup d k v :
  NoDup (keys d) -> In (k, v) d -> lookup d k = Some v.
Proof.
  induction d as [ | [k0 v0] d IH ]; simpl; [ contradiction | ].
  intros N [ E | H ]; inversion N as [ | ? ? N1 N2 ]; subst.
  - injection E as -> ->. rewrite String.eqb_refl. reflexivity.
  - destruct (String.eqb k0 k) eqn:E.
    + apply String.eqb_eq in E. subst k0. exfalso. apply N1.
      change k with (fst (k, v)). apply in_map. exact H.
    + apply IH; assumption.
Qed.

Lemma keys_set d k v :
  keys (set d k v) = if mem d k then keys d else (keys d ++ [k])%list.
Proof.
  unfold mem. induction d as [ | [k0 v0] d IH ]; simpl.
  - reflexivity.
  - destruct (String.eqb k0 k) eqn:E; simpl; [ reflexivity | ].
    rewrite IH. destruct (lookup d k); reflexivity.
Qed.

Lemma NoDup_keys_set d k v : NoDup (keys d) -> NoDup (keys (set d k v)).
Proof.
  intros N. rewrite keys_set. unfold mem.
  destruct (lookup d k) eqn:E; [ exact N | ].
  apply lookup_None in E.
  apply NoDup_app; [ exact N | repeat constructor; intros [] | ].
  intros x Hx [ <- | [] ]. contradiction.
Qed.

End Facts.

Lemma Qsum_values_set (d : Dict.t Q) (k : string) (v : Q) :
  Qsum (values (set d k v)) == Qsum (values d) - get d k 0 + v.
Proof.
  unfold get, values. induction d as [ | [k0 v0] d IH ]; simpl.
  - lra.
  - destruct (String.eqb k0 k) eqn:E; simpl; [ lra | ].
    rewrite IH. destruct (lookup d k); lra.
Qed.

End DictFacts.

(** ** The order of strings

    [sorted] on strings compares them character by character, as Python
    compares [str] values by code point. *)

Lemma ascii_compare_refl (a : ascii) : Ascii.compare a a = Eq.
Proof. unfold Ascii.compare. apply N.compare_refl. Qed.


Lemma string_compare_refl (s : string) : String.compare s s = Eq.
Proof.
  induction s as [ | a s IH ]; simpl; [ reflexivity | ].
  rewrite ascii_compare_refl. exact IH.
Qed.


Lemma string_leb_refl (s : string) : String.leb s s = true.
Proof. unfold String.leb. rewrite string_compare_refl. reflexivity. Qed.





(** ** Rounding is monotone *)




(** ** Prefixes *)






(** ** pipecost.py: the cost map *)

Module PipecostFacts.

Import Pipecost PipecostSpec DictFacts.

Lemma get_accumulate_from (qs : list QueryRecord) (d : Dict.t Q) (nm : string) :
  Dict.get
    (fold_left
       (fun cm q =>
          Dict.set cm (model_name q)
                   (Dict.get cm (model_name q) 0 + credits_used q)) qs d)
    nm 0
  == Dict.get d nm 0 + credits_of nm qs.
Proof.
  unfold credits_of, events_of.
  revert d. induction qs as [ | q qs IH ]; intros d; simpl.
  - lra.
  - rewrite IH, get_set.
    destruct (String.eqb (model_name q) nm) eqn:E; simpl.
    + apply String.eqb_eq in E. subst nm. lra.
    + lra.
Qed.

Lemma sum_accumulate_from (qs : list QueryRecord) (d : Dict.t Q) :
  Qsum (Dict.values
          (fold_left
             (fun cm q =>
                Dict.set cm (model_name q)
                         (Dict.get cm (model_name q) 0 + credits_used q)) qs d))
  == Qsum (Dict.values d) + all_credits qs.
Proof.
  unfold all_credits.
  revert d. induction qs as [ | q qs IH ]; intros d; simpl.
  - lra.
  - rewrite IH, Qsum_values_set. lra.
Qed.

(** [cm[nm]] is the sum of the credits of the events that name [nm]. *)
Lemma cost_map_get (qs : list QueryRecord) (nm : string) :
  Dict.get (fst (_cost_map qs)) nm 0 == credits_of nm qs.
Proof.
  unfold _cost_map, accumulate_costs. simpl.
  rewrite get_accumulate_from. unfold Dict.get. simpl. lra.
Qed.

Lemma cost_map_sum (qs : list QueryRecord) :
  Qsum (Dict.values (accumulate_costs qs)) == all_credits qs.
Proof.
  unfold accumulate_costs. rewrite sum_accumulate_from. simpl. lra.
Qed.

(** The divisor [total] is never zero: [... or 1.0]. *)
Lemma cost_map_total_nonzero (qs : list QueryRecord) :
  ~ snd (_cost_map qs) == 0.
Proof.
  unfold _cost_map. simpl.
  destruct (Qeq_bool _ 0) eqn:E.
  - intros H. discriminate H.
  - apply Qeq_bool_neq in E. exact E.
Qed.

Lemma cost_map_total (qs : list QueryRecord) :
  ~ all_credits qs == 0 -> snd (_cost_map qs) == all_credits qs.
Proof.
  intros H. unfold _cost_map. simpl.
  destruct (Qeq_bool _ 0) eqn:E.
  - apply Qeq_bool_eq in E. rewrite cost_map_sum in E. contradiction.
  - apply cost_map_sum.
Qed.

Lemma cost_map_total_zero (qs : list QueryRecord) :
  all_credits qs == 0 -> snd (_cost_map qs) = 1.
Proof.
  intros H. unfold _cost_map. simpl.
  destruct (Qeq_bool _ 0) eqn:E; [ reflexivity | ].
  apply Qeq_bool_neq in E. rewrite cost_map_sum in E. contradiction.
Qed.

Lemma credits_of_bounds (qs : list QueryRecord) (nm : string) :
  nonneg_credits qs -> 0 <= credits_of nm qs <= all_credits qs.
Proof.
  unfold credits_of, all_credits, events_of.
  induction 1 as [ | q qs Hq _ IH ]; simpl.
  - lra.
  - destruct (String.eqb (model_name q) nm); simpl; lra.
Qed.

(** With non-negative credits the code's percentage of a unit is its
    share of the total credits of all events. *)
Lemma code_share (qs : list QueryRecord) (nm : string) :
  nonneg_credits qs ->
  Dict.get (fst (_cost_map qs)) nm 0 / snd (_cost_map qs)
  == credits_of nm qs / all_credits qs.
Proof.
  intros N. pose proof (credits_of_bounds qs nm N) as B.
  rewrite cost_map_get.
  destruct (Qeq_dec (all_credits qs) 0) as [ Z | NZ ].
  - rewrite (cost_map_total_zero qs Z), Z.
    assert (C : credits_of nm qs == 0) by lra.
    rewrite C. reflexivity.
  - rewrite (cost_map_total qs NZ). reflexivity.
Qed.

(** ** detect_zombies *)

Section Zombies.

Variables (cm : Dict.t Q) (total : Q).
Hypothesis total_nonzero : ~ total == 0.

Lemma zombie_step_appends (m : Model) (acc : list Finding) :
  zombie_step cm total acc m
  = Ok (acc ++ emitted (zombie_step cm total) m).
Proof.
  unfold emitted, zombie_step.
  destruct (negb (is_empty (downstream m)) || _);
    [ rewrite app_nil_r; reflexivity | ].
  rewrite (truediv_ok _ _ total_nonzero). simpl.
  destruct (Qle_bool 1 _); [ reflexivity | rewrite app_nil_r; reflexivity ].
Qed.

Lemma zombie_emitted_inv (m : Model) (f : Finding) :
  In f (emitted (zombie_step cm total) m) ->
  let pct := Dict.get cm (name m) 0 / total * 100 in
  downstream m = [] /\ 0 < Dict.get cm (name m) 0 /\ 1 <= pct
  /\ model f = name m /\ category f = "zombie"
  /\ severity f = (if Qle_bool 5 pct then "critical" else "warning")
  /\ estimated_savings_pct f = round pct 1.
Proof.
  unfold emitted, zombie_step.
  destruct (downstream m) as [ | d ds ]; simpl; [ | contradiction ].
  destruct (Qle_bool (Dict.get cm (name m) 0) 0) eqn:E; [ contradiction | ].
  apply Qle_bool_false in E.
  rewrite (truediv_ok _ _ total_nonzero). simpl.
  destruct (Qle_bool 1 _) eqn:P; [ | contradiction ].
  apply Qle_bool_iff in P.
  intros [ <- | [] ]. simpl. repeat split; assumption.
Qed.

Lemma zombie_emitted_intro (m : Model) :
  downstream m = [] -> 0 < Dict.get cm (name m) 0 ->
  1 <= Dict.get cm (name m) 0 / total * 100 ->
  exists f, In f (emitted (zombie_step cm total) m) /\ model f = name m.
Proof.
  intros D C P. unfold emitted, zombie_step. rewrite D. simpl.
  apply Qle_bool_false in C. rewrite C.
  rewrite (truediv_ok _ _ total_nonzero). simpl.
  apply Qle_bool_iff in P. rewrite P.
  eexists. split; [ left; reflexivity | reflexivity ].
Qed.

End Zombies.

Lemma detect_zombies_eq (models : list Model) (queries : list QueryRecord) :
  detect_zombies models queries
  = Ok (sorted by_savings_desc
          (flat_map (emitted (zombie_step (fst (_cost_map queries))
                                          (snd (_cost_map queries))))
                    models)).
Proof.
  unfold detect_zombies.
  destruct (_cost_map queries) as [cm total] eqn:E. simpl.
  assert (T : ~ total == 0).
  { pose proof (cost_map_total_nonzero queries) as H.
    rewrite E in H. exact H. }
  rewrite for_each_collect
    by (intros x acc _; apply zombie_step_appends; exact T).
  reflexivity.
Qed.

Lemma zombie_pct (queries : list QueryRecord) (nm : string) :
  nonneg_credits queries ->
  Dict.get (fst (_cost_map queries)) nm 0 / snd (_cost_map queries) * 100
  == cost_pct nm queries.
Proof.
  intros N. unfold cost_pct. rewrite (code_share queries nm N). reflexivity.
Qed.


(** ** detect_over_scheduling *)

Lemma length_gaps (ts : list datetime) :
  List.length (gaps ts) = pred (List.length ts).
Proof.
  induction ts as [ | a [ | b ts ] IH ]; simpl in *; try reflexivity.
  rewrite IH. reflexivity.
Qed.




Lemma Qmax_py_pos (x y : Q) : 0 < y -> ~ Qmax_py x y == 0.
Proof.
  intros H. unfold Qmax_py. destruct (Qlt_bool x y) eqn:E.
  - intros Z. rewrite Z in H. apply Qlt_irrefl in H. exact H.
  - intros Z. assert (L : y <= x).
    { apply Qnot_lt_le. intros C. apply Qlt_bool_iff in C. congruence. }
    rewrite Z in L. apply Qlt_not_le in H. contradiction.
Qed.

Section OverScheduling.

Variables (cm : Dict.t Q) (total : Q).
Hypothesis total_nonzero : ~ total == 0.

Lemma avg_defined (times : list datetime) :
  (List.length times <? 3)%nat = false ->
  truediv (Qsum (map hours (gaps (sorted Z.leb times))))
          (inject_Z (Z.of_nat
             (List.length (map hours (gaps (sorted Z.leb times))))))
  = Ok (avg_gap_hours times).
Proof.
  intros L. apply Nat.ltb_ge in L.
  apply truediv_ok, inject_nat_nonzero.
  rewrite length_map, length_gaps, length_sorted. lia.
Qed.

Lemma over_schedule_step_appends (item : string * list datetime)
    (acc : list Finding) :
  over_schedule_step cm total acc item
  = Ok (acc ++ emitted (over_schedule_step cm total) item).
Proof.
  destruct item as [nm times]. unfold emitted, over_schedule_step.
  destruct (List.length times <? 3)%nat eqn:L;
    [ rewrite app_nil_r; reflexivity | ].
  rewrite (avg_defined times L). simpl.
  destruct (Qle_bool (avg_gap_hours times) 4);
    [ | rewrite app_nil_r; reflexivity ].
  rewrite (truediv_ok 24 (Qmax_py (avg_gap_hours times) 0.1))
    by (apply Qmax_py_pos; reflexivity).
  rewrite (truediv_ok _ _ total_nonzero). reflexivity.
Qed.

Lemma over_schedule_emitted_inv (nm : string) (times : list datetime)
    (f : Finding) :
  In f (emitted (over_schedule_step cm total) (nm, times)) ->
  (3 <= List.length times)%nat /\ avg_gap_hours times <= 4
  /\ model f = nm /\ category f = "over_schedule"
  /\ severity f
     = (if Qle_bool (avg_gap_hours times) 1 then "critical" else "warning")
  /\ estimated_savings_pct f
     = round (Dict.get cm nm 0 * 0.75 / total * 100) 1.
Proof.
  unfold emitted, over_schedule_step.
  destruct (List.length times <? 3)%nat eqn:L; [ contradiction | ].
  rewrite (avg_defined times L). simpl.
  destruct (Qle_bool (avg_gap_hours times) 4) eqn:A; [ | contradiction ].
  rewrite (truediv_ok 24 (Qmax_py (avg_gap_hours times) 0.1))
    by (apply Qmax_py_pos; reflexivity).
  rewrite (truediv_ok _ _ total_nonzero). simpl.
  apply Nat.ltb_ge in L. apply Qle_bool_iff in A.
  intros [ <- | [] ]. simpl. repeat split; assumption.
Qed.

Lemma over_schedule_emitted_intro (nm : string) (times : list datetime) :
  (3 <= List.length times)%nat -> avg_gap_hours times <= 4 ->
  exists f, In f (emitted (over_schedule_step cm total) (nm, times))
            /\ model f = nm.
Proof.
  intros L A. unfold emitted, over_schedule_step.
  apply Nat.ltb_ge in L. rewrite L, (avg_defined times L). simpl.
  apply Qle_bool_iff in A. rewrite A.
  rewrite (truediv_ok 24 (Qmax_py (avg_gap_hours times) 0.1))
    by (apply Qmax_py_pos; reflexivity).
  rewrite (truediv_ok _ _ total_nonzero). simpl.
  eexists. split; [ left; reflexivity | reflexivity ].
Qed.

End OverScheduling.

Lemma detect_over_scheduling_eq (models : list Model)
    (queries : list QueryRecord) :
  detect_over_scheduling models queries
  = Ok (sorted by_savings_desc
          (flat_map
             (emitted (over_schedule_step (fst (_cost_map queries))
                                          (snd (_cost_map queries))))
             (Dict.items (group_times queries)))).
Proof.
  unfold detect_over_scheduling.
  destruct (_cost_map queries) as [cm total] eqn:E. simpl.
  assert (T : ~ total == 0).
  { pose proof (cost_map_total_nonzero queries) as H.
    rewrite E in H. exact H. }
  rewrite for_each_collect
    by (intros x acc _; apply over_schedule_step_appends; exact T).
  reflexivity.
Qed.


(** ** detect_redundant *)

Section Redundant.

Variables (cm : Dict.t Q) (total : Q).
Hypothesis total_nonzero : ~ total == 0.

Lemma redundant_step_appends (item : string * list string)
    (acc : list Finding) :
  redundant_step cm total acc item
  = Ok (acc ++ emitted (redundant_step cm total) item).
Proof.
  destruct item as [h names]. unfold emitted, redundant_step.
  destruct (List.length names <? 2)%nat eqn:L;
    [ rewrite app_nil_r; reflexivity | ].
  apply Nat.ltb_ge in L.
  rewrite (truediv_ok _ (inject_Z (Z.of_nat (List.length names))))
    by (apply inject_nat_nonzero; lia).
  simpl. rewrite (truediv_ok _ _ total_nonzero). reflexivity.
Qed.

Lemma redundant_emitted_inv (h : string) (names : list string)
    (f : Finding) :
  In f (emitted (redundant_step cm total) (h, names)) ->
  (2 <= List.length names)%nat
  /\ model f = String.concat ", " names /\ category f = "redundant"
  /\ estimated_savings_pct f = round (redundant_savings cm total names) 1.
Proof.
  unfold emitted, redundant_step.
  destruct (List.length names <? 2)%nat eqn:L; [ contradiction | ].
  apply Nat.ltb_ge in L.
  rewrite (truediv_ok _ (inject_Z (Z.of_nat (List.length names))))
    by (apply inject_nat_nonzero; lia).
  simpl. rewrite (truediv_ok _ _ total_nonzero). simpl.
  intros [ <- | [] ]. simpl. repeat split; try assumption.
Qed.

Lemma redundant_emitted_intro (h : string) (names : list string) :
  (2 <= List.length names)%nat ->
  exists f, emitted (redundant_step cm total) (h, names) = [f]
            /\ model f = String.concat ", " names.
Proof.
  intros L. unfold emitted, redundant_step.
  apply Nat.ltb_ge in L. rewrite L. apply Nat.ltb_ge in L.
  rewrite (truediv_ok _ (inject_Z (Z.of_nat (List.length names))))
    by (apply inject_nat_nonzero; lia).
  simpl. rewrite (truediv_ok _ _ total_nonzero). simpl.
  eexists. split; reflexivity.
Qed.

End Redundant.

Lemma detect_redundant_eq (models : list Model) (queries : list QueryRecord) :
  detect_redundant models queries
  = Ok (sorted by_savings_desc
          (flat_map
             (emitted (redundant_step (fst (_cost_map queries))
                                      (snd (_cost_map queries))))
             (Dict.items (group_hashes models)))).
Proof.
  unfold detect_redundant.
  destruct (_cost_map queries) as [cm total] eqn:E. simpl.
  assert (T : ~ total == 0).
  { pose proof (cost_map_total_nonzero queries) as H.
    rewrite E in H. exact H. }
  rewrite for_each_collect
    by (intros x acc _; apply redundant_step_appends; exact T).
  reflexivity.
Qed.

(** ** Every detector rounds its savings to one decimal and sorts *)

Lemma zombie_savings_decimal (models : list Model) (queries : list QueryRecord)
    (fs : list Finding) :
  detect_zombies models queries = Ok fs ->
  Forall (fun f => decimal 1 (estimated_savings_pct f)) fs.
Proof.
  rewrite detect_zombies_eq. intros [= <-]. apply Forall_forall.
  intros f Hf. apply In_sorted, in_flat_map in Hf.
  destruct Hf as [m [_ Hf]].
  apply zombie_emitted_inv in Hf; [ | apply cost_map_total_nonzero ].
  destruct Hf as (_ & _ & _ & _ & _ & _ & R).
  rewrite R. apply round_is_decimal.
Qed.

Lemma over_schedule_savings_decimal (models : list Model)
    (queries : list QueryRecord) (fs : list Finding) :
  detect_over_scheduling models queries = Ok fs ->
  Forall (fun f => decimal 1 (estimated_savings_pct f)) fs.
Proof.
  rewrite detect_over_scheduling_eq. intros [= <-]. apply Forall_forall.
  intros f Hf. apply In_sorted, in_flat_map in Hf.
  destruct Hf as [[nm ts] [_ Hf]].
  apply over_schedule_emitted_inv in Hf; [ | apply cost_map_total_nonzero ].
  destruct Hf as (_ & _ & _ & _ & _ & R).
  rewrite R. apply round_is_decimal.
Qed.

Lemma redundant_savings_decimal (models : list Model)
    (queries : list QueryRecord) (fs : list Finding) :
  detect_redundant models queries = Ok fs ->
  Forall (fun f => decimal 1 (estimated_savings_pct f)) fs.
Proof.
  rewrite detect_redundant_eq. intros [= <-]. apply Forall_forall.
  intros f Hf. apply In_sorted, in_flat_map in Hf.
  destruct Hf as [[h names] [_ Hf]].
  apply redundant_emitted_inv in Hf; [ | apply cost_map_total_nonzero ].
  destruct Hf as (_ & _ & _ & R).
  rewrite R. apply round_is_decimal.
Qed.

Lemma by_savings_desc_total (f g : Finding) :
  by_savings_desc f g = true \/ by_savings_desc g f = true.
Proof.
  unfold by_savings_desc.
  destruct (Qlt_le_dec (- estimated_savings_pct g) (- estimated_savings_pct f))
    as [ L | L ].
  - right. apply Qle_bool_iff. apply Qlt_le_weak. exact L.
  - left. apply Qle_bool_iff. exact L.
Qed.

Lemma by_savings_desc_trans (f g h : Finding) :
  by_savings_desc f g = true -> by_savings_desc g h = true ->
  by_savings_desc f h = true.
Proof.
  unfold by_savings_desc. rewrite !Qle_bool_iff. apply Qle_trans.
Qed.

Lemma sorted_descending (l : list Finding) :
  descending estimated_savings_pct (sorted by_savings_desc l).
Proof.
  intros i j a b Hij Ha Hb.
  pose proof (ordered_nth by_savings_desc _
                (sorted_ordered by_savings_desc by_savings_desc_total
                                by_savings_desc_trans l)
                i j a b Hij Ha Hb) as H.
  unfold by_savings_desc in H. apply Qle_bool_iff in H. lra.
Qed.

(** ** analyze *)

Lemma analyze_eq (models : list Model) (queries : list QueryRecord) :
  exists z o r,
    detect_zombies models queries = Ok z
    /\ detect_over_scheduling models queries = Ok o
    /\ detect_redundant models queries = Ok r
    /\ analyze models queries
       = Ok {| total_credits := Qsum (map credits_used queries);
               findings := z ++ o ++ r;
               savings_pct :=
                 round (Qmin_py (Qsum (map estimated_savings_pct (z ++ o ++ r)))
                                75) 1;
               summary := {| zombies := List.length z;
                             over_scheduled := List.length o;
                             redundant := List.length r |} |}.
Proof.
  unfold analyze.
  rewrite detect_zombies_eq, detect_over_scheduling_eq, detect_redundant_eq.
  do 3 eexists. repeat split; reflexivity.
Qed.

(** The report's list does violate a global descending order: a 2.0%
    zombie precedes a 49.0% redundant pair. *)
Lemma analyze_not_globally_sorted :
  exists report a b,
    analyze [mkModel "orders_a" "table" "h1" [] ["dash"];
             mkModel "orders_b" "table" "h1" [] ["dash"];
             mkModel "old_report" "table" "h2" [] []]
            [mkQueryRecord "orders_a" 50 0%Z "default";
             mkQueryRecord "orders_b" 50 0%Z "default";
             mkQueryRecord "old_report" 2 0%Z "default"]
    = Ok report
    /\ nth_error (findings report) 0 = Some a
    /\ nth_error (findings report) 1 = Some b
    /\ estimated_savings_pct a == 2
    /\ estimated_savings_pct b == 49
    /\ ~ estimated_savings_pct b <= estimated_savings_pct a.
Proof.
  eexists. eexists. eexists.
  split; [ vm_compute; reflexivity | ].
  split; [ reflexivity | ]. split; [ reflexivity | ].
  split; [ reflexivity | ]. split; [ reflexivity | ].
  intros H. vm_compute in H. apply H. reflexivity.
Qed.

(** C6 (as the code has it).  The report's list is the zombie findings,
    then the over-scheduling findings, then the redundancy findings; each
    of the three runs is in descending order of estimated savings. *)
Theorem analyze_findings_order (models : list Model)
    (queries : list QueryRecord) :
  exists z o r report,
    detect_zombies models queries = Ok z
    /\ detect_over_scheduling models queries = Ok o
    /\ detect_redundant models queries = Ok r
    /\ analyze models queries = Ok report
    /\ findings report = z ++ o ++ r
    /\ descending estimated_savings_pct z
    /\ descending estimated_savings_pct o
    /\ descending estimated_savings_pct r.
Proof.
  destruct (analyze_eq models queries) as (z & o & r & Ez & Eo & Er & Ea).
  exists z, o, r. eexists.
  repeat split; try eassumption; try reflexivity.
  - rewrite detect_zombies_eq in Ez. injection Ez as <-.
    apply sorted_descending.
  - rewrite detect_over_scheduling_eq in Eo. injection Eo as <-.
    apply sorted_descending.
  - rewrite detect_redundant_eq in Er. injection Er as <-.
    apply sorted_descending.
Qed.

Lemma decimal_75 : decimal 1 75.
Proof. exists 750%Z. reflexivity. Qed.

(** C7.  The report's overall savings percentage is the sum of its
    findings' estimated savings capped at 75: never above 75, equal to 75
    when the sum exceeds it and to the sum otherwise. *)
Theorem analyze_savings_capped (models : list Model)
    (queries : list QueryRecord) :
  exists report,
    analyze models queries = Ok report
    /\ let raw := Qsum (map estimated_savings_pct (findings report)) in
       savings_pct report <= 75
       /\ (75 < raw -> savings_pct report == 75)
       /\ (raw <= 75 -> savings_pct report == raw).
Proof.
  destruct (analyze_eq models queries) as (z & o & r & Ez & Eo & Er & Ea).
  eexists. split; [ exact Ea | ]. simpl.
  set (raw := Qsum (map estimated_savings_pct (z ++ o ++ r))).
  assert (D : decimal 1 raw).
  { apply decimal_Qsum. apply Forall_map.
    apply Forall_app; split; [ | apply Forall_app; split ].
    - exact (zombie_savings_decimal _ _ _ Ez).
    - exact (over_schedule_savings_decimal _ _ _ Eo).
    - exact (redundant_savings_decimal _ _ _ Er). }
  unfold Qmin_py. destruct (Qlt_bool 75 raw) eqn:E.
  - apply Qlt_bool_iff in E.
    rewrite (round_decimal 75 1 decimal_75).
    repeat split; intros; try reflexivity; try lra.
  - assert (L : raw <= 75).
    { apply Qnot_lt_le. intros C. apply Qlt_bool_iff in C. congruence. }
    rewrite (round_decimal raw 1 D).
    repeat split; intros; try reflexivity; try lra.
Qed.

(** ** A unit without defining text still gets a fingerprint *)

(** C5 at its failing input: two model nodes with neither [raw_sql] nor
    [raw_code] come out of [parse_manifest] with the same non-empty
    fingerprint, the MD5 digest of the empty text, and [detect_redundant]
    reports them as one redundant pair. *)
Theorem blank_models_collide :
  exists models f,
    parse_manifest
      (Manifest.mkManifest
         (Some [("model.proj.blank_a",
                 Manifest.mkNode (Some "model") (Some "blank_a")
                                 None None None None None None);
                ("model.proj.blank_b",
                 Manifest.mkNode (Some "model") (Some "blank_b")
                                 None None None None None None)]))
    = Ok models
    /\ map sql_hash models
       = ["d41d8cd98f00b204e9800998ecf8427e";
          "d41d8cd98f00b204e9800998ecf8427e"]
    /\ detect_redundant models
         [mkQueryRecord "blank_a" 3 0%Z "default";
          mkQueryRecord "blank_b" 1 0%Z "default"] = Ok [f]
    /\ model f = "blank_a, blank_b"
    /\ category f = "redundant"
    /\ estimated_savings_pct f == 50.
Proof.
  eexists. eexists.
  split; [ vm_compute; reflexivity | ].
  split; [ reflexivity | ].
  split; [ vm_compute; reflexivity | ].
  repeat split.
Qed.

(** ** parse_manifest *)

Lemma append_downstream_same (i : nat) (nm : string) (store : list Model) :
  Forall2 same_unit (append_downstream i nm store) store.
Proof.
  revert i. induction store as [ | m store IH ]; intros i.
  - destruct i; constructor.
  - destruct i as [ | i ]; simpl.
    + constructor; [ split; reflexivity | ].
      clear. induction store; constructor; [ split; reflexivity | assumption ].
    + constructor; [ split; reflexivity | apply IH ].
Qed.

Lemma append_downstream_In (i : nat) (nm : string) (store : list Model)
    (m : Model) :
  In m (append_downstream i nm store) ->
  In m store
  \/ exists m0, nth_error store i = Some m0 /\ name m = name m0
                /\ downstream m = downstream m0 ++ [nm].
Proof.
  revert i. induction store as [ | m1 store IH ]; intros i.
  - destruct i; contradiction.
  - destruct i as [ | i ]; simpl.
    + intros [ <- | H ]; [ right | left; right; exact H ].
      exists m1. repeat split.
    + intros [ <- | H ]; [ left; left; reflexivity | ].
      destruct (IH i H) as [ H' | H' ]; [ left; right; exact H' | right; exact H' ].
Qed.

Lemma Forall2_same_nth (store models : list Model) (i : nat) (m0 mi : Model) :
  Forall2 same_unit store models ->
  nth_error store i = Some m0 -> nth_error models i = Some mi ->
  name m0 = name mi.
Proof.
  intros F. revert i. induction F as [ | a b s t [Hn _] _ IH ]; intros i.
  - destruct i; discriminate.
  - destruct i as [ | i ]; simpl.
    + intros [= <-] [= <-]. exact Hn.
    + apply IH.
Qed.

Lemma Forall2_same_trans (a b c : list Model) :
  Forall2 same_unit a b -> Forall2 same_unit b c -> Forall2 same_unit a c.
Proof.
  intros F. revert c. induction F as [ | x y s t [H1 H2] _ IH ]; intros c G.
  - inversion G. constructor.
  - inversion G as [ | ? z ? u [H3 H4] G' ]; subst.
    constructor; [ split; congruence | apply IH; exact G' ].
Qed.

Lemma Forall2_same_refl (a : list Model) : Forall2 same_unit a a.
Proof. induction a; constructor; [ split; reflexivity | assumption ]. Qed.

(** The name map sends a name to the position of a model of that name. *)
Lemma build_name_map_sound (models : list Model) (k : string) (i : nat) :
  Dict.lookup (build_name_map models) k = Some i ->
  exists m, nth_error models i = Some m /\ name m = k.
Proof.
  unfold build_name_map.
  assert (G : forall (ims : list (nat * Model)) (d : Dict.t nat),
             (forall i m, In (i, m) ims -> nth_error models i = Some m) ->
             (forall k i, Dict.lookup d k = Some i ->
                          exists m, nth_error models i = Some m /\ name m = k) ->
             forall k i,
               Dict.lookup
                 (fold_left (fun d im => Dict.set d (name (snd im)) (fst im))
                            ims d) k = Some i ->
               exists m, nth_error models i = Some m /\ name m = k).
  { induction ims as [ | [j mj] ims IH ]; intros d Hims Hd; simpl.
    - exact Hd.
    - apply IH.
      + intros i' m' H. apply Hims. right. exact H.
      + intros k' i'. rewrite lookup_set.
        destruct (String.eqb (name mj) k') eqn:E.
        * apply String.eqb_eq in E. intros [= <-].
          exists mj. split; [ apply Hims; left; reflexivity | exact E ].
        * apply Hd. }
  apply G.
  - intros i' m' H. clear -H.
    assert (S : forall (l : list Model) (start : nat),
               In (i', m') (combine (seq start (List.length l)) l) ->
               nth_error l (i' - start) = Some m' /\ (start <= i')%nat).
    { induction l as [ | a l IH ]; intros start; simpl.
      - contradiction.
      - intros [ [= <- <-] | H' ].
        + rewrite Nat.sub_diag. split; [ reflexivity | lia ].
        + destruct (IH (S start) H') as [E L].
          replace (i' - start)%nat with (S (i' - S start)) by lia.
          split; [ exact E | lia ]. }
    destruct (S models 0%nat H) as [E _].
    rewrite Nat.sub_0_r in E. exact E.
  - intros k' i'. discriminate.
Qed.

Lemma link_downstream_sound (models : list Model) :
  Forall (fun m => downstream m = []) models ->
  let store := link_downstream (build_name_map models) models in
  Forall2 same_unit store models /\ edges_inverted models store.
Proof.
  intros Empty. unfold link_downstream.
  assert (G : forall (todo : list Model) (store : list Model),
             incl todo models ->
             Forall2 same_unit store models /\ edges_inverted models store ->
             let store' :=
               fold_left
                 (fun store m =>
                    fold_left
                      (fun store up =>
                         match Dict.lookup (build_name_map models) up with
                         | Some i => append_downstream i (name m) store
                         | None => store
                         end)
                      (upstream m) store)
                 todo store in
             Forall2 same_unit store' models /\ edges_inverted models store').
  { induction todo as [ | m todo IH ]; intros store Hin Inv; simpl.
    - exact Inv.
    - apply IH; [ intros x Hx; apply Hin; right; exact Hx | ].
      assert (Hm : In m models) by (apply Hin; left; reflexivity).
      assert (U : forall (ups : list string) (store : list Model),
                 incl ups (upstream m) ->
                 Forall2 same_unit store models
                 /\ edges_inverted models store ->
                 let store' :=
                   fold_left
                     (fun store up =>
                        match Dict.lookup (build_name_map models) up with
                        | Some i => append_downstream i (name m) store
                        | None => store
                        end)
                     ups store in
                 Forall2 same_unit store' models
                 /\ edges_inverted models store').
      { induction ups as [ | up ups IHu ]; intros st Hup Inv'; simpl.
        - exact Inv'.
        - apply IHu; [ intros x Hx; apply Hup; right; exact Hx | ].
          destruct Inv' as [F E].
          destruct (Dict.lookup (build_name_map models) up) as [ i | ] eqn:L;
            [ | split; assumption ].
          destruct (build_name_map_sound models up i L) as (mi & Hi & Hname).
          split.
          + apply (Forall2_same_trans _ st);
              [ apply append_downstream_same | exact F ].
          + intros x d Hx Hd.
            apply append_downstream_In in Hx.
            destruct Hx as [ Hx | (m0 & H0 & Hn & Hdown) ].
            * apply (E x d Hx Hd).
            * rewrite Hdown in Hd. apply in_app_or in Hd.
              destruct Hd as [ Hd | [ <- | [] ] ].
              -- rewrite Hn.
                 apply (E m0 d); [ | exact Hd ].
                 apply nth_error_In with (n := i). exact H0.
              -- exists m. split; [ exact Hm | ]. split; [ reflexivity | ].
                 rewrite Hn, (Forall2_same_nth st models i m0 mi F H0 Hi), Hname.
                 apply Hup. left. reflexivity. }
      apply U; [ apply incl_refl | exact Inv ]. }
  apply G; [ apply incl_refl | ].
  split; [ apply Forall2_same_refl | ].
  intros m d Hm Hd. rewrite Forall_forall in Empty.
  rewrite (Empty m Hm) in Hd. contradiction.
Qed.

Lemma collect_models_fresh (mf : Manifest.t) (models : list Model) :
  collect_models mf = Ok models ->
  Forall (fun m => downstream m = []) models.
Proof.
  unfold collect_models.
  apply (for_each_invariant _ (Forall (fun m => downstream m = []))).
  - intros [key node] s s' _ Hs. simpl.
    destruct (Manifest.not_a_model node); [ intros [= <-]; exact Hs | ].
    unfold model_of_node. destruct (Manifest.name node); simpl;
      [ | discriminate ].
    intros [= <-]. apply Forall_app. split; [ exact Hs | ].
    constructor; [ reflexivity | constructor ].
  - constructor.
Qed.

Lemma collect_models_total (mf : Manifest.t) :
  (forall item, In item (Manifest.node_items mf) ->
                Manifest.not_a_model (snd item) = false ->
                Manifest.name (snd item) <> None) ->
  exists models, collect_models mf = Ok models.
Proof.
  intros H. unfold collect_models. apply for_each_total.
  intros [key node] s Hin. simpl.
  destruct (Manifest.not_a_model node) eqn:E; [ eexists; reflexivity | ].
  specialize (H _ Hin E). simpl in H. unfold model_of_node.
  destruct (Manifest.name node); [ | contradiction H; reflexivity ].
  simpl. eexists. reflexivity.
Qed.

(** The graph of the test suite's manifest plus a source reference: the
    upstream list keeps the name [raw_users], which no model bears. *)
Lemma upstream_may_dangle :
  exists models m,
    parse_manifest
      (Manifest.mkManifest
         (Some [("model.proj.stg_users",
                 Manifest.mkNode (Some "model") (Some "stg_users") None None
                   (Some (Manifest.mkConfig (Some "view")))
                   (Some "SELECT * FROM raw.users") None
                   (Some (Manifest.mkDependsOn
                            (Some ["source.proj.raw.raw_users"])))) ]))
    = Ok models
    /\ In m models
    /\ In "raw_users" (upstream m)
    /\ ~ In "raw_users" (map name models).
Proof.
  eexists. eexists.
  split; [ vm_compute; reflexivity | ].
  split; [ left; reflexivity | ].
  split; [ left; reflexivity | ].
  simpl. intros [ H | [] ]. discriminate H.
Qed.

(** C10 (as the code has it).  For a manifest whose model nodes all have
    a name, [parse_manifest] returns a graph in which every name in a
    downstream list is the name of a returned model, one whose upstream
    list names the owner of that downstream list.  (Upstream lists are
    the manifest's references, dangling ones included.) *)
Theorem parse_manifest_downstream_closed (mf : Manifest.t) :
  (forall item, In item (Manifest.node_items mf) ->
                Manifest.not_a_model (snd item) = false ->
                Manifest.name (snd item) <> None) ->
  exists models,
    parse_manifest mf = Ok models
    /\ forall m d,
         In m models -> In d (downstream m) ->
         exists m', In m' models /\ name m' = d /\ In (name m) (upstream m').
Proof.
  intros H. destruct (collect_models_total mf H) as [models0 E].
  unfold parse_manifest. rewrite E. simpl.
  eexists. split; [ reflexivity | ].
  destruct (link_downstream_sound models0 (collect_models_fresh mf models0 E))
    as [F Inv].
  intros m d Hm Hd. destruct (Inv m d Hm Hd) as (m0 & H0 & Hn & Hu).
  (* the model of [models0] has a counterpart in the returned list *)
  destruct (In_nth_error _ _ H0) as [i Hi].
  assert (C : exists m', nth_error
                           (link_downstream (build_name_map models0) models0) i
                         = Some m' /\ same_unit m' m0).
  { clear -F Hi. revert i Hi. induction F as [ | a b s t R _ IH ]; intros i Hi.
    - destruct i; discriminate.
    - destruct i as [ | i ]; simpl in *.
      + injection Hi as <-. exists a. split; [ reflexivity | exact R ].
      + apply IH. exact Hi. }
  destruct C as (m' & Hi' & Rn & Ru).
  exists m'. split; [ apply nth_error_In with (n := i); exact Hi' | ].
  split; congruence.
Qed.

Lemma parse_manifest_downstream_closed_witness :
  exists models,
    parse_manifest
      (Manifest.mkManifest
         (Some [("model.proj.stg_users",
                 Manifest.mkNode (Some "model") (Some "stg_users") None None
                   None (Some "SELECT 1") None None);
                ("model.proj.dim_users",
                 Manifest.mkNode (Some "model") (Some "dim_users") None None
                   None None (Some "SELECT 2")
                   (Some (Manifest.mkDependsOn
                            (Some ["model.proj.stg_users"]))));
                ("test.proj.not_null",
                 Manifest.mkNode (Some "test") None None None
                   None None None None)]))
    = Ok models
    /\ forall m d,
         In m models -> In d (downstream m) ->
         exists m', In m' models /\ name m' = d /\ In (name m) (upstream m').
Proof.
  apply parse_manifest_downstream_closed.
  intros item [ <- | [ <- | [ <- | [] ] ] ]; simpl; intros F; discriminate.
Defined.


(** ** The cost map *)

Lemma accumulate_keys (qs : list QueryRecord) (d : Dict.t Q) (nm : string) :
  let d' :=
    fold_left
      (fun cm q =>
         Dict.set cm (model_name q)
                  (Dict.get cm (model_name q) 0 + credits_used q)) qs d in
  Dict.mem d' nm
  = Dict.mem d nm || existsb (fun q => String.eqb (model_name q) nm) qs
  /\ (NoDup (Dict.keys d) -> NoDup (Dict.keys d')).
Proof.
  revert d. induction qs as [ | q qs IH ]; intros d; simpl.
  - rewrite orb_false_r. auto.
  - destruct (IH (Dict.set d (model_name q)
                           (Dict.get d (model_name q) 0 + credits_used q)))
      as (M & N).
    simpl in M, N. rewrite M, mem_set.
    split; [ | auto using NoDup_keys_set ].
    destruct (String.eqb (model_name q) nm); simpl;
      [ rewrite orb_true_r | ]; reflexivity.
Qed.

Lemma mem_keys {V : Type} (d : Dict.t V) (k : string) :
  Dict.mem d k = true <-> In k (Dict.keys d).
Proof.
  unfold Dict.mem. destruct (Dict.lookup d k) eqn:L.
  - split; [ intros _ | reflexivity ].
    apply lookup_In in L. change k with (fst (k, v)).
    apply in_map. exact L.
  - apply lookup_None in L. split; [ discriminate | contradiction ].
Qed.

(** ** Over-scheduling looks at the events only *)


(** ** The report's summary *)







(** ** detect_redundant: one finding for each shared fingerprint *)





Lemma group_credits_get (queries : list QueryRecord) (names : list string) :
  Qsum (map (fun nm => Dict.get (fst (_cost_map queries)) nm 0) names)
  == group_credits names queries.
Proof.
  unfold group_credits. induction names as [ | nm names IH ].
  - reflexivity.
  - cbn [map Qsum fold_right].
    apply Qplus_comp; [ apply cost_map_get | exact IH ].
Qed.

Lemma group_credits_zero (queries : list QueryRecord) (names : list string) :
  nonneg_credits queries -> all_credits queries == 0 ->
  group_credits names queries == 0.
Proof.
  intros N Z. unfold group_credits.
  induction names as [ | nm names IH ]; [ reflexivity | ].
  cbn [map Qsum fold_right].
  pose proof (credits_of_bounds queries nm N) as B.
  change (fold_right Qplus 0 (map (fun nm => credits_of nm queries) names))
    with (Qsum (map (fun nm => credits_of nm queries) names)).
  rewrite IH. lra.
Qed.

(** With non-negative credits the code's savings of a group are the
    share [(n - 1) / n] of its credits in the total credits. *)
Lemma redundant_savings_share (queries : list QueryRecord)
    (names : list string) :
  nonneg_credits queries ->
  redundant_savings (fst (_cost_map queries)) (snd (_cost_map queries)) names
  == group_savings names queries.
Proof.
  intros N. unfold redundant_savings, group_savings. cbv zeta.
  rewrite group_credits_get.
  destruct (Qeq_dec (all_credits queries) 0) as [ Z | NZ ].
  - rewrite (cost_map_total_zero queries Z).
    rewrite (group_credits_zero queries names N Z).
    unfold Qdiv. ring.
  - rewrite (cost_map_total queries NZ). reflexivity.
Qed.

Section RedundantGroups.

Variables (cm : Dict.t Q) (total : Q).
Hypothesis total_nonzero : ~ total == 0.

Lemma redundant_emitted_small (h : string) (names : list string) :
  (List.length names < 2)%nat ->
  emitted (redundant_step cm total) (h, names) = [].
Proof.
  intros L. unfold emitted, redundant_step.
  apply Nat.ltb_lt in L. rewrite L. reflexivity.
Qed.

Lemma redundant_emitted_severity (h : string) (names : list string)
    (f : Finding) :
  In f (emitted (redundant_step cm total) (h, names)) ->
  severity f
  = if Qlt_bool 5 (redundant_savings cm total names)
    then "critical" else "warning".
Proof.
  unfold emitted, redundant_step.
  destruct (List.length names <? 2)%nat eqn:L; [ contradiction | ].
  apply Nat.ltb_ge in L.
  rewrite (truediv_ok _ (inject_Z (Z.of_nat (List.length names))))
    by (apply inject_nat_nonzero; lia).
  simpl. rewrite (truediv_ok _ _ total_nonzero). simpl.
  intros [ <- | [] ]. reflexivity.
Qed.

Lemma redundant_models (items : list (string * list string)) :
  map model (flat_map (emitted (redundant_step cm total)) items)
  = map (fun item => String.concat ", " (snd item))
        (filter (fun item => (2 <=? List.length (snd item))%nat) items).
Proof.
  induction items as [ | [h names] items IH ]; [ reflexivity | ].
  cbn [flat_map filter snd]. rewrite map_app, IH.
  destruct (2 <=? List.length names)%nat eqn:L.
  - apply Nat.leb_le in L.
    destruct (redundant_emitted_intro cm total total_nonzero h names L)
      as (f & E & M).
    rewrite E. cbn [map app snd]. rewrite M. reflexivity.
  - apply Nat.leb_gt in L.
    rewrite (redundant_emitted_small h names L). reflexivity.
Qed.

End RedundantGroups.

Lemma NoDup_map_filter {A B : Type} (f : A -> B) (p : A -> bool)
    (l : list A) :
  NoDup (map f l) -> NoDup (map f (filter p l)).
Proof.
  induction l as [ | x l IH ]; simpl; [ intros H; exact H | ].
  intros N. inversion N as [ | ? ? N1 N2 ]; subst.
  destruct (p x); simpl; [ | apply IH; exact N2 ].
  constructor; [ | apply IH; exact N2 ].
  intros C. apply N1. apply in_map_iff in C. destruct C as (y & E & Hy).
  apply filter_In in Hy. rewrite <- E. apply in_map. apply Hy.
Qed.


(** ** parse_manifest: the models and their fingerprints *)



















(** ** parse_manifest: every reference to a model becomes an edge *)












End PipecostFacts.

(** ** pipecost.py over the interpreter's floats: the threshold detectors *)

Module PipecostFloatFacts.

Import Pipecost PipecostFloat PipecostFloatSpec DictFacts.

Lemma values_by_keys {V : Type} (d : Dict.t V) (default : V) :
  NoDup (Dict.keys d) ->
  Dict.values d = map (fun k => Dict.get d k default) (Dict.keys d).
Proof.
  unfold Dict.values, Dict.keys, Dict.get.
  induction d as [ | [k v] d IH ]; intros N; [ reflexivity | ].
  inversion N as [ | ? ? N1 N2 ]; subst. cbn [map fst snd Dict.lookup].
  rewrite String.eqb_refl. f_equal. rewrite (IH N2).
  apply map_ext_in. intros k' Hk.
  destruct (String.eqb k k') eqn:E; [ | reflexivity ].
  apply String.eqb_eq in E. subst k'. contradiction.
Qed.

Lemma filter_filter {A : Type} (f g : A -> bool) (l : list A) :
  filter f (filter g l) = filter (fun x => g x && f x) l.
Proof.
  induction l as [ | x l IH ]; [ reflexivity | ]. simpl.
  destruct (g x); simpl; [ destruct (f x) | ]; rewrite ?IH; reflexivity.
Qed.

Section Costs.

Context {F : Type} {fl : Floats F}.

Implicit Types (queries qs : list (QueryRecord F)) (cm : Dict.t F).

Let step cm (q : QueryRecord F) : Dict.t F :=
  Dict.set cm (model_name q)
           (fadd (Dict.get cm (model_name q) (literal 0)) (credits_used q)).

Lemma lookup_accumulate_from qs cm (nm : string) :
  Dict.lookup (fold_left step qs cm) nm
  = match events_of nm qs with
    | [] => Dict.lookup cm nm
    | evs => Some (fold_left fadd (map credits_used evs)
                             (Dict.get cm nm (literal 0)))
    end.
Proof.
  revert cm. induction qs as [ | q qs IH ]; intros cm; [ reflexivity | ].
  cbn [fold_left]. rewrite IH. unfold events_of. cbn [filter].
  fold (events_of nm qs). unfold step.
  rewrite lookup_set, get_set.
  destruct (String.eqb (model_name q) nm) eqn:E.
  - apply String.eqb_eq in E. subst nm.
    destruct (events_of (model_name q) qs); reflexivity.
  - reflexivity.
Qed.

Lemma keys_accumulate_from qs cm :
  Dict.keys (fold_left step qs cm)
  = (Dict.keys cm ++ filter (fun nm => negb (Dict.mem cm nm)) (units qs))%list.
Proof.
  revert cm. induction qs as [ | q qs IH ]; intros cm.
  - simpl. rewrite app_nil_r. reflexivity.
  - cbn [fold_left units filter]. rewrite IH. unfold step.
    rewrite keys_set, filter_filter.
    assert (X : filter
                  (fun nm =>
                     negb (Dict.mem
                             (Dict.set cm (model_name q)
                                (fadd (Dict.get cm (model_name q) (literal 0))
                                      (credits_used q))) nm))
                  (units qs)
                = filter
                    (fun nm => negb (String.eqb (model_name q) nm)
                               && negb (Dict.mem cm nm))
                    (units qs)).
    { apply filter_ext. intros nm. rewrite mem_set.
      destruct (String.eqb (model_name q) nm); reflexivity. }
    rewrite X.
    destruct (Dict.mem cm (model_name q)); simpl.
    + reflexivity.
    + rewrite <- app_assoc. reflexivity.
Qed.

Lemma NoDup_accumulate_from qs cm :
  NoDup (Dict.keys cm) -> NoDup (Dict.keys (fold_left step qs cm)).
Proof.
  revert cm. induction qs as [ | q qs IH ]; intros cm N; [ exact N | ].
  apply IH. apply NoDup_keys_set. exact N.
Qed.

(** The cost map holds, for each unit the events name, its credits. *)
Lemma cost_map_lookup queries (nm : string) :
  Dict.lookup (fst (_cost_map queries)) nm
  = match events_of nm queries with
    | [] => None
    | _ => Some (credits_of nm queries)
    end.
Proof.
  unfold _cost_map, accumulate_costs. cbn [fst].
  pose proof (lookup_accumulate_from queries [] nm) as L.
  unfold step in L. rewrite L.
  unfold credits_of. destruct (events_of nm queries); reflexivity.
Qed.

Lemma float_cost_map_get queries (nm : string) :
  Dict.get (fst (_cost_map queries)) nm (literal 0) = credits_of nm queries.
Proof.
  unfold Dict.get. rewrite cost_map_lookup. unfold credits_of.
  destruct (events_of nm queries); reflexivity.
Qed.

Lemma cost_map_keys queries :
  Dict.keys (fst (_cost_map queries)) = units queries.
Proof.
  unfold _cost_map, accumulate_costs. cbn [fst].
  pose proof (keys_accumulate_from queries []) as K.
  unfold step in K. rewrite K. cbn [Dict.keys map app].
  generalize (units queries). intros l.
  induction l as [ | u us IH ]; [ reflexivity | ].
  cbn. f_equal. exact IH.
Qed.

(** The total is the total credits of all events, and never zero. *)
Lemma float_cost_map_total queries :
  snd (_cost_map queries) = all_credits queries.
Proof.
  unfold all_credits.
  change (snd (_cost_map queries))
    with (let s := fsum (Dict.values (fst (_cost_map queries))) in
          if is_zero s then literal 1 else s).
  rewrite (values_by_keys _ (literal 0)).
  - rewrite cost_map_keys.
    rewrite (map_ext _ (fun nm => credits_of nm queries));
      [ reflexivity | intros nm; apply float_cost_map_get ].
  - unfold _cost_map, accumulate_costs. cbn [fst].
    pose proof (NoDup_accumulate_from queries []) as N.
    unfold step in N. apply N. constructor.
Qed.

Lemma all_credits_nonzero queries : is_zero (all_credits queries) = false.
Proof.
  unfold all_credits. cbv zeta.
  destruct (is_zero (fsum _)) eqn:E; [ apply one_nonzero | exact E ].
Qed.

Lemma divide_total queries (x : F) :
  divide x (all_credits queries) = Ok (fdiv x (all_credits queries)).
Proof. unfold divide. rewrite all_credits_nonzero. reflexivity. Qed.

(** *** detect_zombies *)

Lemma float_zombie_step_appends queries (m : Model) (acc : list (Finding F)) :
  zombie_step (fst (_cost_map queries)) (all_credits queries) acc m
  = Ok (acc ++ emitted (zombie_step (fst (_cost_map queries))
                                    (all_credits queries)) m).
Proof.
  unfold emitted, zombie_step.
  destruct (negb (is_empty (downstream m)));
    [ rewrite app_nil_r; reflexivity | ].
  destruct (Dict.lookup _ (name m)) as [ c | ];
    [ | rewrite app_nil_r; reflexivity ].
  destruct (fle c (of_int 0)); [ rewrite app_nil_r; reflexivity | ].
  rewrite divide_total. simpl.
  destruct (fle (literal 1) _); [ reflexivity | rewrite app_nil_r; reflexivity ].
Qed.

Lemma float_zombie_emitted_inv queries (m : Model) (f : Finding F) :
  In f (emitted (zombie_step (fst (_cost_map queries))
                             (all_credits queries)) m) ->
  downstream m = [] /\ events_of (name m) queries <> []
  /\ fle (credits_of (name m) queries) (of_int 0) = false
  /\ fle (literal 1) (cost_pct (name m) queries) = true
  /\ model f = name m /\ category f = "zombie"
  /\ severity f
     = (if fle (of_int 5) (cost_pct (name m) queries)
        then "critical" else "warning")
  /\ estimated_savings_pct f = fround (cost_pct (name m) queries) 1.
Proof.
  unfold emitted, zombie_step. rewrite cost_map_lookup.
  destruct (downstream m) as [ | d ds ]; cbn [is_empty negb];
    [ | contradiction ].
  destruct (events_of (name m) queries) as [ | e es ] eqn:Ev;
    [ contradiction | ].
  destruct (fle (credits_of (name m) queries) (of_int 0)) eqn:E;
    [ contradiction | ].
  rewrite divide_total. simpl.
  fold (cost_pct (name m) queries).
  destruct (fle (literal 1) (cost_pct (name m) queries)) eqn:P;
    [ | contradiction ].
  intros [ <- | [] ]. simpl.
  repeat split; try reflexivity. discriminate.
Qed.

Lemma float_zombie_emitted_intro queries (m : Model) :
  downstream m = [] -> events_of (name m) queries <> [] ->
  fle (credits_of (name m) queries) (of_int 0) = false ->
  fle (literal 1) (cost_pct (name m) queries) = true ->
  exists f,
    In f (emitted (zombie_step (fst (_cost_map queries))
                               (all_credits queries)) m)
    /\ model f = name m.
Proof.
  intros D Ev C P. unfold emitted, zombie_step.
  rewrite D, cost_map_lookup. cbn [is_empty negb].
  destruct (events_of (name m) queries) as [ | e es ];
    [ contradiction Ev; reflexivity | ].
  rewrite C, divide_total. simpl.
  fold (cost_pct (name m) queries). rewrite P.
  eexists. split; [ left; reflexivity | reflexivity ].
Qed.

Lemma float_detect_zombies_eq (models : list Model) queries :
  detect_zombies models queries
  = Ok (sorted by_savings_desc
          (flat_map (emitted (zombie_step (fst (_cost_map queries))
                                          (all_credits queries)))
                    models)).
Proof.
  unfold detect_zombies.
  rewrite (surjective_pairing (_cost_map queries)), float_cost_map_total.
  rewrite for_each_collect
    by (intros x acc _; apply float_zombie_step_appends).
  reflexivity.
Qed.

(** *** detect_over_scheduling *)

Lemma intervals_cons (a b : datetime) (ts : list datetime) :
  intervals (a :: b :: ts) = gap_hours a b :: intervals (b :: ts).
Proof.
  unfold intervals.
  replace (List.length (a :: b :: ts) - 1)%nat with (S (List.length ts))
    by (simpl; lia).
  replace (List.length (b :: ts) - 1)%nat with (List.length ts)
    by (simpl; lia).
  cbn [seq map]. rewrite <- seq_shift, map_map.
  reflexivity.
Qed.

(** The interval of each index is the gap between each timestamp and
    the next. *)
Lemma intervals_gaps (ts : list datetime) :
  intervals ts = consecutive_gaps ts.
Proof.
  induction ts as [ | a ts IH ]; [ reflexivity | ].
  destruct ts as [ | b ts ]; [ reflexivity | ].
  rewrite intervals_cons, IH. reflexivity.
Qed.

Lemma length_consecutive_gaps (ts : list datetime) :
  List.length (consecutive_gaps (F := F) ts) = pred (List.length ts).
Proof.
  induction ts as [ | a [ | b ts ] IH ]; simpl in *; try reflexivity.
  rewrite IH. reflexivity.
Qed.

Lemma float_group_times_from qs (d : Dict.t (list datetime)) (nm : string) :
  let d' :=
    fold_left
      (fun groups (q : QueryRecord F) =>
         Dict.set groups (model_name q)
                  (Dict.get groups (model_name q) [] ++ [start_time q]))
      qs d in
  Dict.get d' nm [] = Dict.get d nm [] ++ times_of nm qs
  /\ Dict.mem d' nm
     = Dict.mem d nm || existsb (fun q => String.eqb (model_name q) nm) qs
  /\ (NoDup (Dict.keys d) -> NoDup (Dict.keys d')).
Proof.
  unfold times_of, events_of.
  revert d. induction qs as [ | q qs IH ]; intros d; simpl.
  - rewrite app_nil_r, orb_false_r. auto.
  - destruct (IH (Dict.set d (model_name q)
                           (Dict.get d (model_name q) [] ++ [start_time q])))
      as (G & M & N).
    simpl in G, M, N. rewrite G, M, get_set, mem_set.
    destruct (String.eqb (model_name q) nm) eqn:E; simpl.
    + apply String.eqb_eq in E. subst nm.
      rewrite <- app_assoc, orb_true_r. simpl.
      repeat split; auto using NoDup_keys_set.
    + repeat split; auto using NoDup_keys_set.
Qed.

Lemma float_times_of_nonempty qs (nm : string) :
  existsb (fun q : QueryRecord F => String.eqb (model_name q) nm) qs = true
  <-> times_of nm qs <> [].
Proof.
  unfold times_of, events_of. induction qs as [ | q qs IH ]; simpl.
  - split; [ discriminate | intros H; contradiction H; reflexivity ].
  - destruct (String.eqb (model_name q) nm); simpl.
    + split; [ discriminate | reflexivity ].
    + exact IH.
Qed.

(** The groups are the units that have events, each with its
    timestamps in the order of the events. *)
Lemma float_group_times_items qs (nm : string) (ts : list datetime) :
  In (nm, ts) (Dict.items (group_times qs))
  <-> ts = times_of nm qs /\ ts <> [].
Proof.
  destruct (float_group_times_from qs [] nm) as (G & M & N).
  fold (group_times qs) in G, M, N. simpl in G, M.
  specialize (N (NoDup_nil _)).
  unfold Dict.items. split.
  - intros H. apply (In_lookup _ _ _ N) in H.
    unfold Dict.get in G. unfold Dict.mem in M. rewrite H in G, M.
    split; [ exact G | ].
    rewrite G. apply float_times_of_nonempty. symmetry. exact M.
  - intros [-> H]. apply float_times_of_nonempty in H. rewrite H in M.
    apply lookup_In. unfold Dict.get in G. unfold Dict.mem in M.
    destruct (Dict.lookup (group_times qs) nm); [ | discriminate ].
    rewrite G. reflexivity.
Qed.

Lemma fmax_tenth_nonzero (x : F) :
  is_zero (fmax x (literal (1 # 10))) = false.
Proof.
  unfold fmax. destruct (flt x (literal (1 # 10))) eqn:L.
  - apply tenth_nonzero.
  - destruct (is_zero x) eqn:X; [ | reflexivity ].
    rewrite (zero_below_tenth _ X) in L. discriminate.
Qed.

Lemma cost_map_get_present queries (nm : string) (default : F) :
  events_of nm queries <> [] ->
  Dict.get (fst (_cost_map queries)) nm default = credits_of nm queries.
Proof.
  intros Ev. unfold Dict.get. rewrite cost_map_lookup.
  destruct (events_of nm queries); [ contradiction Ev | ]; reflexivity.
Qed.

Lemma avg_divide (times : list datetime) :
  (3 <= List.length times)%nat ->
  divide (fsum (intervals (sorted Z.leb times)))
         (of_int (Z.of_nat (List.length (intervals (sorted Z.leb times)))))
  = Ok (mean_gap times).
Proof.
  intros L. rewrite intervals_gaps. unfold mean_gap, divide. cbv zeta.
  rewrite of_int_nonzero; [ reflexivity | ].
  rewrite length_consecutive_gaps, length_sorted. lia.
Qed.

Lemma divide_max (x y : F) :
  divide x (fmax y (literal (1 # 10)))
  = Ok (fdiv x (fmax y (literal (1 # 10)))).
Proof. unfold divide. rewrite fmax_tenth_nonzero. reflexivity. Qed.

Lemma float_over_schedule_step_appends queries (item : string * list datetime)
    (acc : list (Finding F)) :
  over_schedule_step (fst (_cost_map queries)) (all_credits queries) acc item
  = Ok (acc ++ emitted (over_schedule_step (fst (_cost_map queries))
                                           (all_credits queries)) item).
Proof.
  destruct item as [nm times]. unfold emitted, over_schedule_step.
  destruct (List.length times <? 3)%nat eqn:L;
    [ rewrite app_nil_r; reflexivity | ].
  apply Nat.ltb_ge in L. cbv zeta. rewrite (avg_divide times L).
  cbn [bind].
  destruct (fle (mean_gap times) (of_int 4));
    [ | rewrite app_nil_r; reflexivity ].
  rewrite divide_max, divide_total. reflexivity.
Qed.

Lemma float_over_schedule_emitted_inv queries (nm : string)
    (times : list datetime) (f : Finding F) :
  In f (emitted (over_schedule_step (fst (_cost_map queries))
                                    (all_credits queries)) (nm, times)) ->
  (3 <= List.length times)%nat
  /\ fle (mean_gap times) (of_int 4) = true
  /\ model f = nm /\ category f = "over_schedule"
  /\ severity f
     = (if fle (mean_gap times) (of_int 1) then "critical" else "warning")
  /\ estimated_savings_pct f
     = fround
         (fmul (fdiv (fmul (Dict.get (fst (_cost_map queries)) nm (of_int 0))
                           (literal (3 # 4)))
                     (all_credits queries))
               (of_int 100)) 1.
Proof.
  unfold emitted, over_schedule_step.
  destruct (List.length times <? 3)%nat eqn:L; [ contradiction | ].
  apply Nat.ltb_ge in L. cbv zeta. rewrite (avg_divide times L).
  cbn [bind].
  destruct (fle (mean_gap times) (of_int 4)) eqn:A; [ | contradiction ].
  rewrite divide_max, divide_total. cbn [bind].
  intros [ <- | [] ]. cbn.
  repeat split; try reflexivity. exact L.
Qed.

Lemma float_over_schedule_emitted_intro queries (nm : string)
    (times : list datetime) :
  (3 <= List.length times)%nat ->
  fle (mean_gap times) (of_int 4) = true ->
  exists f,
    In f (emitted (over_schedule_step (fst (_cost_map queries))
                                      (all_credits queries)) (nm, times))
    /\ model f = nm.
Proof.
  intros L A. unfold emitted, over_schedule_step.
  replace (List.length times <? 3)%nat with false
    by (symmetry; apply Nat.ltb_ge; exact L).
  cbv zeta. rewrite (avg_divide times L). cbn [bind]. rewrite A.
  rewrite divide_max, divide_total. cbn [bind].
  eexists. split; [ left; reflexivity | reflexivity ].
Qed.

Lemma float_detect_over_scheduling_eq (models : list Model) queries :
  detect_over_scheduling models queries
  = Ok (sorted by_savings_desc
          (flat_map
             (emitted (over_schedule_step (fst (_cost_map queries))
                                          (all_credits queries)))
             (Dict.items (group_times queries)))).
Proof.
  unfold detect_over_scheduling. cbv zeta.
  rewrite (surjective_pairing (_cost_map queries)), float_cost_map_total.
  rewrite for_each_collect
    by (intros x acc _; apply float_over_schedule_step_appends).
  reflexivity.
Qed.

Lemma length_times_of queries (nm : string) :
  List.length (times_of nm queries) = List.length (events_of nm queries).
Proof. unfold times_of. apply length_map. Qed.

Lemma choice_iff (b : bool) (s : string) :
  s = (if b then "critical" else "warning") ->
  (s = "critical" <-> b = true) /\ (s = "warning" <-> b = false).
Proof.
  intros ->. destruct b; repeat split; intros; try reflexivity;
    discriminate.
Qed.

End Costs.

(** C3.  Whatever the floats of the interpreter: [detect_zombies] returns
    a list of findings in which a unit name appears exactly when some
    model of that name has no downstream dependent, has events whose
    credits add up to more than zero, and has a cost percentage (its
    credits divided by the total credits of all events, times 100, each
    operation rounded as the interpreter rounds it) of at least 1.0;
    each finding is critical exactly when that percentage is at least 5
    and a warning otherwise; a name all of whose models have a
    downstream dependent never appears, whatever its cost share.  For
    credits that are not negative, to be more than zero is to be other
    than zero. *)
Theorem detect_zombies_spec {F : Type} {fl : Floats F}
    (models : list Model) (queries : list (QueryRecord F)) :
  exists fs,
    detect_zombies models queries = Ok fs
    /\ (forall nm,
          (exists f, In f fs /\ model f = nm)
          <-> (exists m, In m models /\ name m = nm /\ downstream m = []
                         /\ events_of nm queries <> []
                         /\ fle (credits_of nm queries) (of_int 0) = false
                         /\ fle (literal 1) (cost_pct nm queries) = true))
    /\ (forall f, In f fs ->
          category f = "zombie"
          /\ (severity f = "critical"
              <-> fle (of_int 5) (cost_pct (model f) queries) = true)
          /\ (severity f = "warning"
              <-> fle (of_int 5) (cost_pct (model f) queries) = false))
    /\ (forall nm,
          (forall m, In m models -> name m = nm -> downstream m <> []) ->
          forall f, In f fs -> model f <> nm)
    /\ (forall nm,
          fle (of_int 0) (credits_of nm queries) = true ->
          (fle (credits_of nm queries) (of_int 0) = false
           <-> is_zero (credits_of nm queries) = false)).
Proof.
  rewrite float_detect_zombies_eq. eexists. split; [ reflexivity | ].
  assert (Inv : forall f,
             In f (sorted by_savings_desc
                     (flat_map (emitted (zombie_step (fst (_cost_map queries))
                                                     (all_credits queries)))
                               models)) ->
             exists m, In m models /\ model f = name m /\ downstream m = []
                       /\ events_of (name m) queries <> []
                       /\ fle (credits_of (name m) queries) (of_int 0) = false
                       /\ fle (literal 1) (cost_pct (name m) queries) = true
                       /\ category f = "zombie"
                       /\ severity f
                          = (if fle (of_int 5) (cost_pct (name m) queries)
                             then "critical" else "warning")).
  { intros f Hf. apply In_sorted, in_flat_map in Hf.
    destruct Hf as [m [Hm Hf]]. exists m.
    destruct (float_zombie_emitted_inv queries m f Hf)
      as (D & Ev & C & P & M & K & S & _).
    repeat split; assumption. }
  split; [ | split; [ | split ] ].
  - intros nm. split.
    + intros (f & Hf & <-).
      destruct (Inv f Hf) as (m & Hm & M & D & Ev & C & P & _).
      exists m. rewrite M. repeat split; assumption.
    + intros (m & Hm & <- & D & Ev & C & P).
      destruct (float_zombie_emitted_intro queries m D Ev C P) as (f & Hf & M).
      exists f. split; [ | exact M ].
      apply In_sorted, in_flat_map. exists m. split; assumption.
  - intros f Hf.
    destruct (Inv f Hf) as (m & _ & M & _ & _ & _ & _ & K & S).
    rewrite M. split; [ exact K | ]. apply choice_iff. exact S.
  - intros nm H f Hf E.
    destruct (Inv f Hf) as (m & Hm & M & D & _).
    apply (H m Hm); congruence.
  - intros nm N. split.
    + intros C. destruct (is_zero (credits_of nm queries)) eqn:Z;
        [ | reflexivity ].
      rewrite (zero_le_zero _ Z) in C. discriminate.
    + intros Z. destruct (fle (credits_of nm queries) (of_int 0)) eqn:C;
        [ | reflexivity ].
      rewrite (le_zero_le _ C N) in Z. discriminate.
Qed.

Lemma detect_zombies_spec_witness :
  exists fs,
    detect_zombies (fl := Exact)
      [mkModel "stg_orders" "view" "h1" [] ["fct_orders"];
       mkModel "tmp_export" "table" "h2" [] []]
      [mkQueryRecord "stg_orders" (19 # 2) 0%Z "default";
       mkQueryRecord "tmp_export" (1 # 2) 0%Z "default"]
    = Ok fs
    /\ exists f, In f fs /\ model f = "tmp_export"
                 /\ severity f = "critical".
Proof.
  destruct (detect_zombies_spec (fl := Exact)
              [mkModel "stg_orders" "view" "h1" [] ["fct_orders"];
               mkModel "tmp_export" "table" "h2" [] []]
              [mkQueryRecord "stg_orders" (19 # 2) 0%Z "default";
               mkQueryRecord "tmp_export" (1 # 2) 0%Z "default"])
    as (fs & E & I & S & _).
  exists fs. split; [ exact E | ].
  destruct (proj2 (I "tmp_export")) as (f & Hf & M).
  { exists (mkModel "tmp_export" "table" "h2" [] []).
    repeat split; try reflexivity; [ right; left; reflexivity | discriminate ]. }
  exists f. split; [ exact Hf | ]. split; [ exact M | ].
  apply (S f Hf). rewrite M. reflexivity.
Defined.

(** The savings the over-scheduling detector reports are rounded to one
    decimal: of three hourly runs of one credit each, next to five
    credits spent elsewhere, it reports 28.1, and 75% of the unit's
    share of the total is 28.125. *)
Lemma savings_are_rounded :
  exists (queries : list (QueryRecord Q)) (f : Finding Q),
    detect_over_scheduling [] queries = Ok [f]
    /\ estimated_savings_pct f == 281 # 10
    /\ (3 # 4) * cost_pct (model f) queries == 28125 # 1000
    /\ ~ estimated_savings_pct f == (3 # 4) * cost_pct (model f) queries.
Proof.
  exists [mkQueryRecord "hourly" 1 0%Z "default";
          mkQueryRecord "hourly" 1 3600000000%Z "default";
          mkQueryRecord "nightly" 5 0%Z "default";
          mkQueryRecord "hourly" 1 7200000000%Z "default"].
  eexists. split; [ vm_compute; reflexivity | ].
  split; [ vm_compute; reflexivity | ].
  split; [ vm_compute; reflexivity | ].
  vm_compute. discriminate.
Qed.

(** C4 (as the code has it).  Whatever the floats of the interpreter:
    [detect_over_scheduling] returns a list of findings in which a unit
    appears exactly when it has at least 3 events and the mean of the
    consecutive gaps between its sorted timestamps, in hours, is at most
    4; a unit with fewer than 3 events never appears; each finding is
    critical exactly when that mean is at most 1 and a warning
    otherwise; and its estimated savings are the unit's credits times
    0.75, over the total credits, times 100, rounded to one decimal. *)
Theorem detect_over_scheduling_spec {F : Type} {fl : Floats F}
    (models : list Model) (queries : list (QueryRecord F)) :
  exists fs,
    detect_over_scheduling models queries = Ok fs
    /\ (forall nm,
          (exists f, In f fs /\ model f = nm)
          <-> (3 <= List.length (events_of nm queries))%nat
              /\ fle (mean_gap (times_of nm queries)) (of_int 4) = true)
    /\ (forall f, In f fs ->
          category f = "over_schedule"
          /\ (severity f = "critical"
              <-> fle (mean_gap (times_of (model f) queries)) (of_int 1)
                  = true)
          /\ (severity f = "warning"
              <-> fle (mean_gap (times_of (model f) queries)) (of_int 1)
                  = false)
          /\ estimated_savings_pct f
             = fround (savings_of (model f) queries) 1)
    /\ (forall nm,
          (List.length (events_of nm queries) < 3)%nat ->
          forall f, In f fs -> model f <> nm).
Proof.
  rewrite float_detect_over_scheduling_eq. eexists. split; [ reflexivity | ].
  assert (Inv : forall f,
             In f (sorted by_savings_desc
                     (flat_map
                        (emitted (over_schedule_step
                                    (fst (_cost_map queries))
                                    (all_credits queries)))
                        (Dict.items (group_times queries)))) ->
             (3 <= List.length (events_of (model f) queries))%nat
             /\ fle (mean_gap (times_of (model f) queries)) (of_int 4) = true
             /\ category f = "over_schedule"
             /\ severity f
                = (if fle (mean_gap (times_of (model f) queries)) (of_int 1)
                   then "critical" else "warning")
             /\ estimated_savings_pct f
                = fround (savings_of (model f) queries) 1).
  { intros f Hf. apply In_sorted, in_flat_map in Hf.
    destruct Hf as [[nm times] [Hi Hf]].
    apply float_group_times_items in Hi. destruct Hi as [-> _].
    destruct (float_over_schedule_emitted_inv queries nm _ f Hf)
      as (L & A & M & K & S & V).
    subst nm. rewrite length_times_of in L.
    rewrite cost_map_get_present in V
      by (intros Z; rewrite Z in L; simpl in L; lia).
    repeat split; assumption. }
  split; [ | split ].
  - intros nm. split.
    + intros (f & Hf & <-). destruct (Inv f Hf) as (L & A & _).
      split; assumption.
    + intros [L A]. rewrite <- length_times_of in L.
      destruct (float_over_schedule_emitted_intro queries nm _ L A)
        as (f & Hf & M).
      exists f. split; [ | exact M ].
      apply In_sorted, in_flat_map. exists (nm, times_of nm queries).
      split; [ | exact Hf ].
      apply float_group_times_items. split; [ reflexivity | ].
      intros Z. rewrite Z in L. simpl in L. lia.
  - intros f Hf. destruct (Inv f Hf) as (_ & _ & K & S & V).
    split; [ exact K | ].
    destruct (choice_iff _ _ S) as [S1 S2].
    split; [ exact S1 | split; [ exact S2 | exact V ] ].
  - intros nm L f Hf E. destruct (Inv f Hf) as (L' & _).
    rewrite E in L'. lia.
Qed.

Lemma detect_over_scheduling_spec_witness :
  exists fs,
    detect_over_scheduling (fl := Exact) []
      [mkQueryRecord "hourly" 1 0%Z "default";
       mkQueryRecord "hourly" 1 3600000000%Z "default";
       mkQueryRecord "nightly" 5 0%Z "default";
       mkQueryRecord "hourly" 1 7200000000%Z "default"]
    = Ok fs
    /\ exists f, In f fs /\ model f = "hourly" /\ severity f = "critical".
Proof.
  destruct (detect_over_scheduling_spec (fl := Exact) []
              [mkQueryRecord "hourly" 1 0%Z "default";
               mkQueryRecord "hourly" 1 3600000000%Z "default";
               mkQueryRecord "nightly" 5 0%Z "default";
               mkQueryRecord "hourly" 1 7200000000%Z "default"])
    as (fs & E & I & S & _).
  exists fs. split; [ exact E | ].
  destruct (proj2 (I "hourly")) as (f & Hf & M).
  { split; [ simpl; lia | reflexivity ]. }
  exists f. split; [ exact Hf | ]. split; [ exact M | ].
  apply (S f Hf). rewrite M. reflexivity.
Defined.

End PipecostFloatFacts.

(** ** snowflake_parser.py: parse_query_history *)

Module SnowflakeFacts.

Import SnowflakeParser SnowflakeSpec DictFacts.

Section Conversions.

Variable int_of_str : string -> option Z.
Variable float_of_str : string -> option Q.
Variable repr : json -> string.

Lemma py_int_total (v : json) :
  int_like int_of_str v -> exists z, py_int int_of_str v = Ok z.
Proof.
  destruct v; simpl; try contradiction; try (eexists; reflexivity).
  intros H. destruct (int_of_str s); [ eexists; reflexivity | ].
  contradiction H. reflexivity.
Qed.

Lemma float_of_int_fits (z : Z) :
  (Z.abs z < 2 ^ 1024 - 2 ^ 970)%Z <-> float_of_int z <> None.
Proof.
  unfold float_of_int.
  destruct (Z.leb_spec (2 ^ 1024 - 2 ^ 970) (Z.abs z)) as [ L | L ].
  - split; [ lia | intros H; contradiction H; reflexivity ].
  - split; [ discriminate | intros _; exact L ].
Qed.

Lemma py_float_total (v : json) :
  float_like float_of_str v -> exists q, py_float float_of_str v = Ok q.
Proof.
  destruct v; simpl; try contradiction; try (eexists; reflexivity).
  - intros H. apply float_of_int_fits in H.
    destruct (float_of_int z); [ eexists; reflexivity | ].
    contradiction H. reflexivity.
  - intros H. destruct (float_of_str s); [ eexists; reflexivity | ].
    contradiction H. reflexivity.
Qed.

Lemma field_object (fields : Dict.t json) (upper lower : string)
    (default : json) :
  field (JObj fields) upper lower default
  = Ok (pick fields upper lower default).
Proof. reflexivity. Qed.

Lemma pick_absent (fields : Dict.t json) (upper lower : string)
    (default : json) :
  absent fields upper lower -> pick fields upper lower default = default.
Proof.
  unfold absent, pick, Dict.mem, Dict.get. intros [U L].
  destruct (Dict.lookup fields upper); [ discriminate | ].
  destruct (Dict.lookup fields lower); [ discriminate | reflexivity ].
Qed.

Lemma py_int_raises (v : json) (e : exn) :
  py_int int_of_str v = Raise e -> e <> not_an_array.
Proof.
  destruct v; simpl; try discriminate; try (intros [= <-]; discriminate).
  destruct (int_of_str s); [ discriminate | intros [= <-]; discriminate ].
Qed.

Lemma py_float_raises (v : json) (e : exn) :
  py_float float_of_str v = Raise e -> e <> not_an_array.
Proof.
  destruct v; simpl; try discriminate; try (intros [= <-]; discriminate).
  - destruct (float_of_int z); [ discriminate | intros [= <-]; discriminate ].
  - destruct (float_of_str s); [ discriminate | intros [= <-]; discriminate ].
Qed.

Lemma normalize_row_object (fields : Dict.t json) :
  normalize_row int_of_str float_of_str repr (JObj fields)
  = (bytes <- py_int int_of_str
                     (pick fields "BYTES_SCANNED" "bytes_scanned" (JInt 0)) ;;
     credits <- py_float float_of_str
                         (pick fields "CREDITS_USED" "credits_used" (JFloat 0)) ;;
     time <- py_int int_of_str
                    (pick fields "EXECUTION_TIME" "execution_time" (JInt 0)) ;;
     Ok {| query_id :=
             py_str repr (pick fields "QUERY_ID" "query_id" (JStr ""));
           query_text :=
             py_str repr (pick fields "QUERY_TEXT" "query_text" (JStr ""));
           warehouse_name :=
             py_str repr
                    (pick fields "WAREHOUSE_NAME" "warehouse_name" (JStr ""));
           bytes_scanned := bytes;
           credits_used := credits;
           execution_time := time;
           start_time :=
             py_str repr (pick fields "START_TIME" "start_time" (JStr "")) |}).
Proof. reflexivity. Qed.

Lemma normalize_row_raises (row : json) (e : exn) :
  normalize_row int_of_str float_of_str repr row = Raise e ->
  e <> not_an_array.
Proof.
  destruct row; try (intros [= <-]; discriminate).
  rewrite normalize_row_object.
  destruct (py_int int_of_str (pick fields "BYTES_SCANNED" _ _)) eqn:B;
    simpl; [ | intros [= <-]; apply (py_int_raises _ _ B) ].
  destruct (py_float float_of_str _) eqn:C;
    simpl; [ | intros [= <-]; apply (py_float_raises _ _ C) ].
  destruct (py_int int_of_str (pick fields "EXECUTION_TIME" _ _)) eqn:T;
    simpl; [ discriminate | intros [= <-]; apply (py_int_raises _ _ T) ].
Qed.

Lemma normalize_row_total (row : json) :
  well_formed_row int_of_str float_of_str row ->
  exists q, normalize_row int_of_str float_of_str repr row = Ok q
            /\ normalized int_of_str float_of_str repr row q.
Proof.
  intros (fields & -> & B & C & T).
  destruct (py_int_total _ B) as [b Eb].
  destruct (py_float_total _ C) as [c Ec].
  destruct (py_int_total _ T) as [t Et].
  rewrite normalize_row_object, Eb, Ec, Et. simpl.
  eexists. split; [ reflexivity | ].
  exists fields. simpl. repeat split; assumption.
Qed.

Lemma rows_loop (rows : list json) (acc : list Query) :
  Forall (well_formed_row int_of_str float_of_str) rows ->
  exists qs,
    for_each
      (fun results row =>
         q <- normalize_row int_of_str float_of_str repr row ;;
         Ok (results ++ [q]))
      rows acc
    = Ok (acc ++ qs)
    /\ Forall2 (normalized int_of_str float_of_str repr) rows qs.
Proof.
  intros F. revert acc. induction F as [ | row rows Hrow _ IH ]; intros acc.
  - exists []. simpl. rewrite app_nil_r. split; [ reflexivity | constructor ].
  - destruct (normalize_row_total row Hrow) as (q & Eq & Nq).
    destruct (IH (acc ++ [q])) as (qs & Eqs & Nqs).
    exists (q :: qs). simpl. rewrite Eq. simpl. rewrite Eqs.
    rewrite <- app_assoc. split; [ reflexivity | ].
    constructor; assumption.
Qed.

Lemma rows_loop_raises (rows : list json) (acc : list Query) (e : exn) :
  for_each
    (fun results row =>
       q <- normalize_row int_of_str float_of_str repr row ;;
       Ok (results ++ [q]))
    rows acc
  = Raise e ->
  e <> not_an_array.
Proof.
  revert acc. induction rows as [ | row rows IH ]; intros acc; simpl.
  - discriminate.
  - destruct (normalize_row int_of_str float_of_str repr row) eqn:N; simpl.
    + apply IH.
    + intros [= <-]. apply (normalize_row_raises _ _ N).
Qed.

End Conversions.

(** A row whose byte count is JSON [null] makes [int()] raise
    [TypeError], whatever the interpreter's conversions of text. *)
Lemma null_field_raises :
  exists rows,
    forall int_of_str float_of_str repr,
      parse_query_history int_of_str float_of_str repr (JArr rows)
      = Raise TypeError.
Proof.
  exists [JObj [("QUERY_ID", JStr "01abc-0001");
                ("BYTES_SCANNED", JNull);
                ("CREDITS_USED", JFloat 1.5)]].
  intros. reflexivity.
Qed.

(** C8 (as the code has it).  [parse_query_history] raises its
    validation error exactly when the parsed input is not an array, and
    then returns nothing; for an array of objects whose numeric fields,
    where present, are numbers, booleans or numeric text, the credits
    when an integer being within the range of a float, it returns one
    record per row, and a field absent under both spellings of its key
    takes the default: the empty string, or zero.  Credits given as an
    integer of magnitude [2^1024 - 2^970] or more make [float()] raise
    [OverflowError]. *)
Theorem parse_query_history_spec (int_of_str : string -> option Z)
    (float_of_str : string -> option Q) (repr : json -> string) (raw : json) :
  (parse_query_history int_of_str float_of_str repr raw = Raise not_an_array
   <-> ~ is_array raw)
  /\ (forall rows,
        raw = JArr rows ->
        Forall (well_formed_row int_of_str float_of_str) rows ->
        exists qs,
          parse_query_history int_of_str float_of_str repr raw = Ok qs
          /\ Forall2 (normalized int_of_str float_of_str repr) rows qs)
  /\ (forall fields q,
        normalized int_of_str float_of_str repr (JObj fields) q ->
        (absent fields "QUERY_ID" "query_id" -> query_id q = "")
        /\ (absent fields "QUERY_TEXT" "query_text" -> query_text q = "")
        /\ (absent fields "WAREHOUSE_NAME" "warehouse_name" ->
            warehouse_name q = "")
        /\ (absent fields "BYTES_SCANNED" "bytes_scanned" ->
            bytes_scanned q = 0%Z)
        /\ (absent fields "CREDITS_USED" "credits_used" ->
            credits_used q = 0)
        /\ (absent fields "EXECUTION_TIME" "execution_time" ->
            execution_time q = 0%Z)
        /\ (absent fields "START_TIME" "start_time" -> start_time q = ""))
  /\ (forall z,
        (2 ^ 1024 - 2 ^ 970 <= Z.abs z)%Z ->
        parse_query_history int_of_str float_of_str repr
          (JArr [JObj [("QUERY_ID", JStr "01abc-0001");
                       ("CREDITS_USED", JInt z)]])
        = Raise OverflowError).
Proof.
  split; [ | split; [ | split ] ].
  - split.
    + intros E [rows ->]. simpl in E.
      apply (rows_loop_raises _ _ _ _ _ _ E). reflexivity.
    + intros N. destruct raw; try reflexivity.
      contradiction N. eexists. reflexivity.
  - intros rows -> F. simpl.
    destruct (rows_loop int_of_str float_of_str repr rows [] F) as (qs & E & N).
    exists qs. split; assumption.
  - intros fields q (fields' & [= <-] & I & X & W & B & C & T & S).
    repeat split; intros A; rewrite (pick_absent _ _ _ _ A) in *;
      simpl in *; congruence.
  - intros z H. cbn. unfold float_of_int.
    destruct (Z.leb_spec (2 ^ 1024 - 2 ^ 970) (Z.abs z)) as [ L | L ];
      [ reflexivity | lia ].
Qed.

Lemma parse_query_history_spec_witness :
  exists qs,
    parse_query_history (fun _ => None) (fun _ => None) (fun _ => "")
      (JArr [JObj [("QUERY_ID", JStr "01abc-0001");
                   ("CREDITS_USED", JFloat 1.5)]])
    = Ok qs
    /\ Forall2 (normalized (fun _ => None) (fun _ => None) (fun _ => ""))
               [JObj [("QUERY_ID", JStr "01abc-0001");
                      ("CREDITS_USED", JFloat 1.5)]] qs.
Proof.
  apply (proj1 (proj2 (parse_query_history_spec
                         (fun _ => None) (fun _ => None) (fun _ => "")
                         (JArr [JObj [("QUERY_ID", JStr "01abc-0001");
                                      ("CREDITS_USED", JFloat 1.5)]]))));
    [ reflexivity | ].
  constructor; [ | constructor ].
  eexists. split; [ reflexivity | ]. simpl. repeat split; exact I.
Defined.


(** ** snowflake_parser.py: _match_query_to_models *)

Lemma set_add_In (nm x : string) (matched : list string) :
  In x (set_add nm matched) <-> x = nm \/ In x matched.
Proof.
  unfold set_add. destruct (existsb (String.eqb nm) matched) eqn:E.
  - split; [ intros H; right; exact H | ].
    intros [ -> | H ]; [ | exact H ].
    apply existsb_exists in E. destruct E as (y & Hy & Ey).
    apply String.eqb_eq in Ey. subst y. exact Hy.
  - rewrite in_app_iff. simpl. intuition.
Qed.

Lemma set_add_NoDup (nm : string) (matched : list string) :
  NoDup matched -> NoDup (set_add nm matched).
Proof.
  intros N. unfold set_add.
  destruct (existsb (String.eqb nm) matched) eqn:E; [ exact N | ].
  apply NoDup_app; [ exact N | constructor; [ intros [] | constructor ] | ].
  intros x Hx [ <- | [] ].
  assert (C : existsb (String.eqb nm) matched = true).
  { apply existsb_exists. exists nm. split; [ exact Hx | apply String.eqb_refl ]. }
  congruence.
Qed.

(** *** Texts and their parts *)

Lemma string_app_assoc (a b c : string) :
  ((a ++ b) ++ c = a ++ b ++ c)%string.
Proof. induction a as [ | x a IH ]; simpl; [ | rewrite IH ]; reflexivity. Qed.

Lemma string_app_length (a b : string) :
  String.length (a ++ b) = (String.length a + String.length b)%nat.
Proof. induction a as [ | x a IH ]; simpl; [ | rewrite IH ]; reflexivity. Qed.

Lemma substring_prefix (p rest : string) :
  substring 0 (String.length p) (p ++ rest) = p.
Proof.
  induction p as [ | c p IH ]; simpl.
  - destruct rest; reflexivity.
  - rewrite IH. reflexivity.
Qed.

Lemma substring_app (before p after : string) :
  substring (String.length before) (String.length p) (before ++ p ++ after)
  = p.
Proof.
  induction before as [ | c before IH ]; simpl.
  - apply substring_prefix.
  - exact IH.
Qed.

Lemma prefix_found (p s : string) :
  (String.length p <= String.length s)%nat ->
  substring 0 (String.length p) s = p ->
  exists after, s = (p ++ after)%string.
Proof.
  revert s. induction p as [ | c p IH ]; intros s L E; simpl in *.
  - exists s. reflexivity.
  - destruct s as [ | d s ]; simpl in *; [ lia | ].
    injection E as -> E. destruct (IH s) as [after ->]; [ lia | exact E | ].
    exists after. reflexivity.
Qed.

Lemma occurrence_found (i : nat) (p s : string) :
  (i + String.length p <= String.length s)%nat ->
  substring i (String.length p) s = p ->
  exists before after,
    s = (before ++ p ++ after)%string /\ String.length before = i.
Proof.
  revert s. induction i as [ | i IH ]; intros s L E.
  - destruct (prefix_found p s L E) as [after ->].
    exists ""%string, after. split; reflexivity.
  - destruct s as [ | c s ]; simpl in *; [ lia | ].
    destruct (IH s) as (before & after & -> & <-); [ lia | exact E | ].
    exists (String c before), after. split; reflexivity.
Qed.

Lemma get_app_right (a b : string) :
  String.get (String.length a) (a ++ b) = String.get 0 b.
Proof. induction a as [ | x a IH ]; simpl; [ reflexivity | exact IH ]. Qed.

Section Text.

Variable lower : string -> string.
Variable is_word_char : ascii -> bool.

Lemma word_at_right (a b : string) :
  word_at is_word_char (a ++ b) (String.length a)
  = starts_with_word is_word_char b.
Proof.
  unfold word_at. rewrite get_app_right. destruct b; reflexivity.
Qed.

Lemma word_at_left (a b : string) :
  match String.length a with
  | O => false
  | S p => word_at is_word_char (a ++ b) p
  end
  = ends_with_word is_word_char a.
Proof.
  induction a as [ | c a IH ]; [ reflexivity | ].
  destruct a as [ | d a ]; [ reflexivity | ].
  exact IH.
Qed.

(** The code's test of a boundary at a position is the comparison of
    the two sides of the cut. *)
Lemma boundary_app (a b : string) :
  boundary is_word_char (a ++ b) (String.length a)
  = xorb (ends_with_word is_word_char a) (starts_with_word is_word_char b).
Proof.
  unfold boundary. rewrite word_at_right, word_at_left. reflexivity.
Qed.

Lemma match_at_app (before p after : string) :
  match_at is_word_char p (before ++ p ++ after) (String.length before)
  = xorb (ends_with_word is_word_char before)
         (starts_with_word is_word_char (p ++ after))
    && xorb (ends_with_word is_word_char (before ++ p))
            (starts_with_word is_word_char after).
Proof.
  unfold match_at, occurs_at.
  rewrite boundary_app, substring_app, String.eqb_refl.
  rewrite <- (string_app_length before p) at 2.
  rewrite <- string_app_assoc, boundary_app.
  rewrite string_app_assoc, !string_app_length.
  replace (String.length before + String.length p
           <=? String.length before
               + (String.length p + String.length after))%nat
    with true by (symmetry; apply Nat.leb_le; lia).
  rewrite !andb_true_r. reflexivity.
Qed.

Lemma xorb_differ (a b : bool) : xorb a b = true <-> a <> b.
Proof. destruct a, b; simpl; split; congruence. Qed.

(** A match at position [i] is an occurrence there with a word
    boundary on each side. *)
Lemma match_at_iff (p s : string) (i : nat) :
  match_at is_word_char p s i = true
  <-> exists before after,
        s = (before ++ p ++ after)%string /\ String.length before = i
        /\ word_boundary is_word_char before (p ++ after)
        /\ word_boundary is_word_char (before ++ p) after.
Proof.
  split.
  - intros M.
    assert (O : occurs_at p s i = true).
    { unfold match_at in M. apply andb_true_iff in M. destruct M as [M _].
      apply andb_true_iff in M. apply M. }
    unfold occurs_at in O. apply andb_true_iff in O. destruct O as [L E].
    apply Nat.leb_le in L. apply String.eqb_eq in E.
    destruct (occurrence_found i p s L E) as (before & after & -> & <-).
    rewrite match_at_app in M. apply andb_true_iff in M.
    destruct M as [B1 B2]. exists before, after.
    repeat split; try reflexivity; apply xorb_differ; assumption.
  - intros (before & after & -> & <- & B1 & B2).
    rewrite match_at_app. apply andb_true_iff.
    split; apply xorb_differ; assumption.
Qed.

Lemma re_search_word_iff (p s : string) :
  re_search_word is_word_char p s = true
  <-> stands_alone is_word_char p s.
Proof.
  unfold re_search_word, stands_alone. rewrite existsb_exists. split.
  - intros (i & _ & M). apply match_at_iff in M.
    destruct M as (before & after & E & _ & B1 & B2).
    exists before, after. repeat split; assumption.
  - intros (before & after & E & B1 & B2).
    exists (String.length before). split.
    + apply in_seq. subst s. rewrite !string_app_length. lia.
    + apply match_at_iff. exists before, after.
      repeat split; assumption.
Qed.

Lemma ends_with_word_app (a p : string) :
  p <> ""%string ->
  ends_with_word is_word_char (a ++ p) = ends_with_word is_word_char p.
Proof.
  intros N. induction a as [ | c a IH ]; [ reflexivity | ].
  simpl. destruct (a ++ p)%string eqn:E; [ | exact IH ].
  destruct a; simpl in E; [ contradiction | discriminate ].
Qed.

Lemma starts_with_word_app (p b : string) :
  p <> ""%string ->
  starts_with_word is_word_char (p ++ b)
  = starts_with_word is_word_char p.
Proof. intros N. destruct p; [ contradiction | reflexivity ]. Qed.

(** An occurrence inside a longer identifier has no boundary on the
    side where the identifier goes on. *)
Lemma inside_identifier_no_match (before p after : string) :
  inside_identifier is_word_char before p after ->
  match_at is_word_char p (before ++ p ++ after) (String.length before)
  = false.
Proof.
  intros I. rewrite match_at_app.
  destruct I as [ [E S] | [E S] ].
  - assert (N : p <> ""%string) by (intros ->; discriminate E).
    rewrite (ends_with_word_app before p N), E, S. apply andb_false_r.
  - assert (N : p <> ""%string) by (intros ->; discriminate S).
    rewrite (starts_with_word_app p after N), E, S. reflexivity.
Qed.

Lemma matched_fold_In (s : string) (items : list (string * string))
    (acc : list string) (nm : string) :
  In nm (fold_left
           (fun matched item =>
              if re_search_word is_word_char (fst item) s
              then set_add (snd item) matched else matched)
           items acc)
  <-> In nm acc
      \/ exists pattern,
           In (pattern, nm) items
           /\ re_search_word is_word_char pattern s = true.
Proof.
  revert acc. induction items as [ | [p m] items IH ]; intros acc; simpl.
  - split; [ intros H; left; exact H | ].
    intros [ H | (p & [] & _) ]. exact H.
  - rewrite IH. destruct (re_search_word is_word_char p s) eqn:E.
    + rewrite set_add_In. split.
      * intros [ [ -> | H ] | (p' & H & R) ].
        -- right. exists p. split; [ left; reflexivity | exact E ].
        -- left. exact H.
        -- right. exists p'. split; [ right; exact H | exact R ].
      * intros [ H | (p' & [ [= -> ->] | H ] & R) ].
        -- left. right. exact H.
        -- left. left. reflexivity.
        -- right. exists p'. split; assumption.
    + split.
      * intros [ H | (p' & H & R) ]; [ left; exact H | ].
        right. exists p'. split; [ right; exact H | exact R ].
      * intros [ H | (p' & [ [= -> ->] | H ] & R) ].
        -- left. exact H.
        -- congruence.
        -- right. exists p'. split; assumption.
Qed.

Lemma matched_fold_NoDup (s : string) (items : list (string * string))
    (acc : list string) :
  NoDup acc ->
  NoDup (fold_left
           (fun matched item =>
              if re_search_word is_word_char (fst item) s
              then set_add (snd item) matched else matched)
           items acc).
Proof.
  revert acc. induction items as [ | [p m] items IH ]; intros acc N; simpl.
  - exact N.
  - apply IH. destruct (re_search_word is_word_char p s); [ | exact N ].
    apply set_add_NoDup. exact N.
Qed.

Lemma match_query_In (text : string) (model_map : Dict.t string)
    (nm : string) :
  In nm (_match_query_to_models lower is_word_char text model_map)
  <-> exists pattern,
        In (pattern, nm) (Dict.items model_map)
        /\ stands_alone is_word_char pattern (lower text).
Proof.
  unfold _match_query_to_models.
  rewrite In_sorted, matched_fold_In. split.
  - intros [ [] | (p & H & R) ]. exists p.
    split; [ apply In_sorted in H; exact H | apply re_search_word_iff; exact R ].
  - intros (p & H & R). right. exists p.
    split; [ apply In_sorted; exact H | apply re_search_word_iff; exact R ].
Qed.

Lemma match_query_NoDup (text : string) (model_map : Dict.t string) :
  NoDup (_match_query_to_models lower is_word_char text model_map).
Proof.
  unfold _match_query_to_models.
  apply (Permutation_NoDup (l := fold_left
             (fun matched item =>
                if re_search_word is_word_char (fst item) (lower text)
                then set_add (snd item) matched else matched)
             (sorted longest_first (Dict.items model_map)) [])).
  - symmetry. apply sorted_perm.
  - apply matched_fold_NoDup. constructor.
Qed.

End Text.

(** C2.  Whatever the interpreter's [str.lower] and class [\w]: a model
    name is returned exactly when one of its patterns occurs in the
    lower-cased text with a word boundary on each side, and each such
    name is returned once, however many of its patterns match and
    whatever their lengths.  An occurrence of a pattern inside a longer
    identifier is no match, so a name all of whose pattern occurrences
    lie inside longer identifiers is not returned: [stg_orders] is not
    matched where the text has [stg_orders_v2].  On ASCII text, a query
    that names [stg_orders_v2] alone matches nothing of [stg_orders],
    one that names both matches both, in any case of letters, and a
    qualified and a bare pattern of two different models both count. *)
Theorem match_query_word_boundary (lower : string -> string)
    (is_word_char : ascii -> bool) (text : string)
    (model_map : Dict.t string) :
  (forall nm,
      In nm (_match_query_to_models lower is_word_char text model_map)
      <-> exists pattern,
            In (pattern, nm) (Dict.items model_map)
            /\ stands_alone is_word_char pattern (lower text))
  /\ NoDup (_match_query_to_models lower is_word_char text model_map)
  /\ (forall before pattern after,
        inside_identifier is_word_char before pattern after ->
        match_at is_word_char pattern (before ++ pattern ++ after)
                 (String.length before) = false)
  /\ (forall nm,
        (forall before pattern after,
            In (pattern, nm) (Dict.items model_map) ->
            lower text = (before ++ pattern ++ after)%string ->
            inside_identifier is_word_char before pattern after) ->
        ~ In nm (_match_query_to_models lower is_word_char text model_map))
  /\ (is_word_char "s"%char = true -> is_word_char "_"%char = true ->
      forall before after,
        match_at is_word_char "stg_orders"
                 (before ++ "stg_orders_v2" ++ after) (String.length before)
        = false)
  /\ _match_query_to_models ascii_lower ascii_word
       "SELECT * FROM analytics.stg_orders_v2"
       [("stg_orders", "stg_orders")] = []
  /\ _match_query_to_models ascii_lower ascii_word
       "select * from Analytics.STG_ORDERS o join stg_orders_v2 v on 1=1"
       [("stg_orders", "stg_orders");
        ("analytics.stg_orders", "stg_orders");
        ("stg_orders_v2", "stg_orders_v2");
        ("stg_users", "stg_users")]
     = ["stg_orders"; "stg_orders_v2"]
  /\ _match_query_to_models ascii_lower ascii_word
       "select * from a.orders"
       [("m1", "m1"); ("orders", "m2"); ("a.m1", "m1"); ("a.orders", "m1");
        ("m2", "m2"); ("b.m2", "m2"); ("b.orders", "m2")]
     = ["m1"; "m2"].
Proof.
  split; [ intros nm; apply match_query_In | ].
  split; [ apply match_query_NoDup | ].
  split; [ intros before pattern after; apply inside_identifier_no_match | ].
  split.
  { intros nm H Hin. apply match_query_In in Hin.
    destruct Hin as (p & Hp & (before & after & E & B1 & B2)).
    pose proof (inside_identifier_no_match is_word_char _ _ _
                  (H before p after Hp E)) as C.
    assert (M : match_at is_word_char p (before ++ p ++ after)
                         (String.length before) = true).
    { apply match_at_iff. exists before, after.
      repeat split; assumption. }
    congruence. }
  split.
  { intros Ws Wu before after.
    change ("stg_orders_v2" ++ after)%string
      with ("stg_orders" ++ ("_v2" ++ after))%string.
    apply inside_identifier_no_match. left. split; simpl; assumption. }
  repeat split; vm_compute; reflexivity.
Qed.

(** ** snowflake_parser.py: attribute_cost_to_model *)

Lemma attributed_credits_set (d : Dict.t CostAttribution) (k : string)
    (v : CostAttribution) :
  attributed_credits (Dict.set d k v)
  == attributed_credits d
     - match Dict.lookup d k with
       | Some a => total_credits a
       | None => 0
       end
     + total_credits v.
Proof.
  unfold attributed_credits, Dict.values.
  induction d as [ | [k0 v0] d IH ]; simpl.
  - lra.
  - destruct (String.eqb k0 k) eqn:E; simpl; [ lra | ].
    rewrite IH. lra.
Qed.

Lemma inject_nat_succ (n : nat) :
  inject_Z (Z.of_nat (S n)) == 1 + inject_Z (Z.of_nat n).
Proof.
  rewrite Nat2Z.inj_succ, <- Z.add_1_l, inject_Z_plus. reflexivity.
Qed.

(** One pass of the inner loop: the model [nm] is charged [share] of the
    query, and nothing else changes. *)
Lemma attribute_to_charged (q : Query) (share : Q)
    (st : Dict.t CostAttribution * Dict.t (list Z)) (nm nm' : string) :
  charged_credits (fst (attribute_to q share st nm)) nm'
  == charged_credits (fst st) nm'
     + (if String.eqb nm nm' then credits_used q * share else 0)
  /\ charged_queries (fst (attribute_to q share st nm)) nm'
     = (charged_queries (fst st) nm'
        + (if String.eqb nm nm' then 1 else 0))%Z
  /\ attributed_credits (fst (attribute_to q share st nm))
     == attributed_credits (fst st) + credits_used q * share.
Proof.
  destruct st as [attrs et].
  unfold attribute_to, charged_credits, charged_queries. cbn [fst].
  unfold Dict.mem. destruct (Dict.lookup attrs nm) as [ a | ] eqn:L.
  - assert (G : Dict.get attrs nm (new_attribution nm) = a)
      by (unfold Dict.get; rewrite L; reflexivity).
    rewrite G, !get_set, attributed_credits_set, L.
    destruct (String.eqb nm nm') eqn:E.
    + apply String.eqb_eq in E. subst nm'. rewrite G. simpl.
      repeat split; lra.
    + simpl. repeat split; try lra. lia.
  - rewrite !get_set, String.eqb_refl.
    rewrite !attributed_credits_set, lookup_set, String.eqb_refl, L.
    destruct (String.eqb nm nm') eqn:E.
    + apply String.eqb_eq in E. subst nm'.
      unfold Dict.get. rewrite L. simpl. repeat split; lra.
    + simpl. repeat split; try lra. lia.
Qed.

Lemma attribute_fold (q : Query) (share : Q) (models : list string) :
  NoDup models ->
  forall (st : Dict.t CostAttribution * Dict.t (list Z)),
    attributed_credits (fst (fold_left (attribute_to q share) models st))
    == attributed_credits (fst st)
       + inject_Z (Z.of_nat (List.length models)) * (credits_used q * share)
    /\ forall nm,
         charged_credits (fst (fold_left (attribute_to q share) models st)) nm
         == charged_credits (fst st) nm
            + (if existsb (String.eqb nm) models
               then credits_used q * share else 0)
         /\ charged_queries
              (fst (fold_left (attribute_to q share) models st)) nm
            = (charged_queries (fst st) nm
               + (if existsb (String.eqb nm) models then 1 else 0))%Z.
Proof.
  induction 1 as [ | m models Hm N IH ]; intros st.
  - cbn [fold_left List.length existsb Z.of_nat].
    change (inject_Z 0) with 0.
    split; [ lra | ]. intros nm. split; [ lra | lia ].
  - cbn [fold_left List.length existsb].
    destruct (IH (attribute_to q share st m)) as [S C].
    split.
    + rewrite S, inject_nat_succ.
      destruct (attribute_to_charged q share st m m) as (_ & _ & T).
      rewrite T. lra.
    + intros nm. destruct (C nm) as [C1 C2]. rewrite C1, C2.
      destruct (attribute_to_charged q share st m nm) as (T1 & T2 & _).
      rewrite T1, T2. rewrite (String.eqb_sym nm m).
      destruct (String.eqb m nm) eqn:E; simpl.
      * apply String.eqb_eq in E. subst nm.
        assert (X : existsb (String.eqb m) models = false).
        { destruct (existsb (String.eqb m) models) eqn:X; [ | reflexivity ].
          apply existsb_exists in X. destruct X as (y & Hy & Ey).
          apply String.eqb_eq in Ey. subst y. contradiction. }
        rewrite X. split; [ lra | lia ].
      * split; [ lra | lia ].
Qed.

Section Attribution.

Variable lower : string -> string.
Variable is_word_char : ascii -> bool.

Lemma matched_models_NoDup (model_map : Dict.t string) (q : Query) :
  NoDup (matched_models lower is_word_char model_map q).
Proof.
  unfold matched_models.
  pose proof (match_query_NoDup lower is_word_char (query_text q) model_map) as N.
  destruct (_match_query_to_models lower is_word_char (query_text q) model_map); [ | exact N ].
  constructor; [ intros [] | constructor ].
Qed.

Lemma matched_models_nonempty (model_map : Dict.t string) (q : Query) :
  (0 < List.length (matched_models lower is_word_char model_map q))%nat.
Proof.
  unfold matched_models.
  destruct (_match_query_to_models lower is_word_char (query_text q) model_map); simpl; lia.
Qed.

(** One query: its credits go, in even shares, to the models matched. *)
Lemma attribute_query_charged (model_map : Dict.t string) (q : Query)
    (st : Dict.t CostAttribution * Dict.t (list Z)) :
  exists st',
    attribute_query lower is_word_char model_map st q = Ok st'
    /\ attributed_credits (fst st')
       == attributed_credits (fst st) + credits_used q
    /\ forall nm,
         charged_credits (fst st') nm
         == charged_credits (fst st) nm + share_of lower is_word_char model_map nm q
         /\ charged_queries (fst st') nm
            = (charged_queries (fst st) nm + hit lower is_word_char model_map nm q)%Z.
Proof.
  unfold attribute_query.
  pose proof (inject_nat_nonzero _ (matched_models_nonempty model_map q)) as NZ.
  rewrite (truediv_ok _ _ NZ). simpl.
  eexists. split; [ reflexivity | ].
  destruct (attribute_fold q
              (1 / inject_Z (Z.of_nat (List.length (matched_models lower is_word_char model_map q))))
              (matched_models lower is_word_char model_map q)
              (matched_models_NoDup model_map q) st) as [S C].
  split.
  - rewrite S. field. exact NZ.
  - intros nm. destruct (C nm) as [C1 C2]. rewrite C1, C2.
    unfold share_of, hit, charged.
    destruct (existsb (String.eqb nm) (matched_models lower is_word_char model_map q));
      split; try reflexivity.
    field. exact NZ.
Qed.

Lemma attribute_loop (model_map : Dict.t string) (qs : list Query) :
  forall st : Dict.t CostAttribution * Dict.t (list Z),
  exists st',
    for_each (attribute_query lower is_word_char model_map) qs st = Ok st'
    /\ attributed_credits (fst st')
       == attributed_credits (fst st) + Qsum (map credits_used qs)
    /\ forall nm,
         charged_credits (fst st') nm
         == charged_credits (fst st) nm
            + Qsum (map (share_of lower is_word_char model_map nm) qs)
         /\ charged_queries (fst st') nm
            = (charged_queries (fst st) nm
               + Zsum (map (hit lower is_word_char model_map nm) qs))%Z.
Proof.
  induction qs as [ | q qs IH ]; intros st; simpl.
  - eexists. split; [ reflexivity | ]. split; [ lra | ].
    intros nm. split; [ lra | lia ].
  - destruct (attribute_query_charged model_map q st) as (s1 & E1 & S1 & C1).
    rewrite E1. simpl.
    destruct (IH s1) as (s2 & E2 & S2 & C2).
    exists s2. split; [ exact E2 | ]. split; [ rewrite S2, S1; lra | ].
    intros nm. destruct (C1 nm) as [A1 B1]. destruct (C2 nm) as [A2 B2].
    rewrite A2, B2, A1, B1. split; [ lra | lia ].
Qed.

(** The averaging loop touches execution times only. *)
Lemma average_step_charged (attrs : Dict.t CostAttribution)
    (item : string * list Z) :
  exists attrs',
    average_step attrs item = Ok attrs'
    /\ attributed_credits attrs' == attributed_credits attrs
    /\ forall nm,
         charged_credits attrs' nm = charged_credits attrs nm
         /\ charged_queries attrs' nm = charged_queries attrs nm.
Proof.
  destruct item as [k times]. unfold average_step.
  destruct (Dict.lookup attrs k) as [ a | ] eqn:L;
    [ | eexists; split; [ reflexivity | split; [ reflexivity | split; reflexivity ] ] ].
  destruct times as [ | t times ];
    [ eexists; split; [ reflexivity | split; [ reflexivity | split; reflexivity ] ] | ].
  rewrite truediv_ok by (apply inject_nat_nonzero; simpl; lia). simpl.
  eexists. split; [ reflexivity | ]. split.
  - rewrite attributed_credits_set, L. simpl. lra.
  - intros nm. unfold charged_credits, charged_queries. rewrite get_set.
    destruct (String.eqb k nm) eqn:E; [ | split; reflexivity ].
    apply String.eqb_eq in E. subst nm.
    unfold Dict.get. rewrite L. split; reflexivity.
Qed.

Lemma average_loop (items : list (string * list Z)) :
  forall attrs : Dict.t CostAttribution,
  exists attrs',
    for_each average_step items attrs = Ok attrs'
    /\ attributed_credits attrs' == attributed_credits attrs
    /\ forall nm,
         charged_credits attrs' nm = charged_credits attrs nm
         /\ charged_queries attrs' nm = charged_queries attrs nm.
Proof.
  induction items as [ | item items IH ]; intros attrs; simpl.
  - eexists. split; [ reflexivity | ]. split; [ reflexivity | ].
    intros nm. split; reflexivity.
  - destruct (average_step_charged attrs item) as (a1 & E1 & S1 & C1).
    rewrite E1. simpl.
    destruct (IH a1) as (a2 & E2 & S2 & C2).
    exists a2. split; [ exact E2 | ]. split; [ rewrite S2; exact S1 | ].
    intros nm. destruct (C1 nm) as [A1 B1]. destruct (C2 nm) as [A2 B2].
    split; congruence.
Qed.

(** C1.  With the manifest's pattern table [model_map],
    [attribute_cost_to_model] returns attributions in which every name
    holds the sum of its even shares of the queries charged to it and the
    number of those queries; a query is charged to the models its text
    matches, or to the unattributed bucket when it matches none, and its
    shares add up to its credits; the credits of all attributions add up
    to the credits of all queries. *)
Theorem attribution_conserves_credits (qs : list Query) (mf : Manifest.t)
    (model_map : Dict.t string) :
  _extract_model_names_from_manifest lower mf = Ok model_map ->
  exists attrs,
    attribute_cost_to_model lower is_word_char qs mf = Ok attrs
    /\ attributed_credits attrs == Qsum (map credits_used qs)
    /\ (forall nm,
          charged_credits attrs nm == Qsum (map (share_of lower is_word_char model_map nm) qs)
          /\ charged_queries attrs nm = Zsum (map (hit lower is_word_char model_map nm) qs))
    /\ (forall q,
          (_match_query_to_models lower is_word_char (query_text q) model_map = [] ->
           matched_models lower is_word_char model_map q = ["__unattributed__"])
          /\ (_match_query_to_models lower is_word_char (query_text q) model_map <> [] ->
              matched_models lower is_word_char model_map q
              = _match_query_to_models lower is_word_char (query_text q) model_map)
          /\ Qsum (map (fun nm => share_of lower is_word_char model_map nm q)
                       (matched_models lower is_word_char model_map q))
             == credits_used q).
Proof.
  intros M. unfold attribute_cost_to_model. rewrite M. simpl.
  destruct (attribute_loop model_map qs ([], [])) as (st & E & S & C).
  rewrite E. simpl.
  destruct (average_loop (Dict.items (snd st)) (fst st)) as (attrs & E' & S' & C').
  exists attrs. split; [ exact E' | ].
  split; [ rewrite S', S; unfold attributed_credits; simpl; lra | ].
  split.
  - intros nm. destruct (C nm) as [A B]. destruct (C' nm) as [A' B'].
    rewrite A', B', A, B. unfold charged_credits, charged_queries. simpl.
    split; [ lra | lia ].
  - intros q. split; [ | split ].
    + unfold matched_models. intros ->. reflexivity.
    + unfold matched_models.
      destruct (_match_query_to_models lower is_word_char (query_text q) model_map);
        [ intros H; contradiction H; reflexivity | reflexivity ].
    + pose proof (inject_nat_nonzero _ (matched_models_nonempty model_map q))
        as NZ.
      assert (G : forall l,
                 (forall x, In x l -> In x (matched_models lower is_word_char model_map q)) ->
                 Qsum (map (fun nm => share_of lower is_word_char model_map nm q) l)
                 == inject_Z (Z.of_nat (List.length l))
                    * (credits_used q
                       / inject_Z
                           (Z.of_nat
                              (List.length (matched_models lower is_word_char model_map q))))).
      { induction l as [ | x l IH ]; intros Hl.
        - cbn [map Qsum fold_right List.length Z.of_nat].
          change (inject_Z 0) with 0. lra.
        - cbn [map Qsum fold_right List.length]. rewrite inject_nat_succ.
          change (fold_right Qplus 0 (map (fun nm => share_of lower is_word_char model_map nm q) l))
            with (Qsum (map (fun nm => share_of lower is_word_char model_map nm q) l)).
          rewrite IH by (intros y Hy; apply Hl; right; exact Hy).
          unfold share_of at 1, charged.
          replace (existsb (String.eqb x) (matched_models lower is_word_char model_map q))
            with true.
          + cbv iota. lra.
          + symmetry. apply existsb_exists. exists x.
            split; [ apply Hl; left; reflexivity | apply String.eqb_refl ]. }
      rewrite G by (intros x Hx; exact Hx). field. exact NZ.
Qed.

End Attribution.

Lemma attribution_conserves_credits_witness :
  exists attrs,
    attribute_cost_to_model ascii_lower ascii_word
      [mkQuery "q1" "select * from analytics.stg_orders join stg_users"
               "WH" 100 3 10 "2024-01-05T00:00:00";
       mkQuery "q2" "select 1" "WH" 0 (1 # 2) 5 ""]
      (Manifest.mkManifest
         (Some [("model.proj.stg_orders",
                 Manifest.mkNode (Some "model") (Some "stg_orders")
                                 None (Some "analytics") None None None None);
                ("model.proj.stg_users",
                 Manifest.mkNode (Some "model") (Some "stg_users")
                                 None None None None None None)]))
    = Ok attrs
    /\ attributed_credits attrs == 3 + (1 # 2).
Proof.
  destruct (attribution_conserves_credits ascii_lower ascii_word
              [mkQuery "q1" "select * from analytics.stg_orders join stg_users"
                       "WH" 100 3 10 "2024-01-05T00:00:00";
               mkQuery "q2" "select 1" "WH" 0 (1 # 2) 5 ""]
              (Manifest.mkManifest
                 (Some [("model.proj.stg_orders",
                         Manifest.mkNode (Some "model") (Some "stg_orders")
                                         None (Some "analytics") None None
                                         None None);
                        ("model.proj.stg_users",
                         Manifest.mkNode (Some "model") (Some "stg_users")
                                         None None None None None None)]))
              [("stg_orders", "stg_orders");
               ("analytics.stg_orders", "stg_orders");
               ("stg_users", "stg_users")]
              eq_refl) as (attrs & E & S & _).
  exists attrs. split; [ exact E | ]. rewrite S. simpl. lra.
Defined.

(** ** Matching returns sorted names *)


(** ** CostAttribution.to_dict *)


(** ** calculate_monthly_breakdown *)

Section Calendar.

Variable fromisoformat : string -> option Pipecost.datetime.
Variable strftime : Pipecost.datetime -> string -> string.

Lemma month_key_unknown (start : string) :
  start = "" \/ fromisoformat (replace_Z start) = None ->
  month_key fromisoformat strftime start = "unknown".
Proof.
  unfold month_key. intros [ -> | E ]; [ reflexivity | ].
  rewrite E. destruct (String.eqb start ""); reflexivity.
Qed.

Lemma replace_Z_app (s t : string) :
  replace_Z (s ++ t)%string = (replace_Z s ++ replace_Z t)%string.
Proof.
  induction s as [ | c s IH ]; simpl; [ reflexivity | ].
  rewrite IH. destruct (Ascii.eqb c "Z"); reflexivity.
Qed.

(** A trailing [Z] is read as the offset [+00:00]. *)
Lemma month_key_zulu (s : string) (dt : Pipecost.datetime) :
  fromisoformat (replace_Z s ++ "+00:00")%string = Some dt ->
  month_key fromisoformat strftime (s ++ "Z")%string = strftime dt "%Y-%m".
Proof.
  intros E. unfold month_key. rewrite replace_Z_app. simpl. rewrite E.
  destruct s; reflexivity.
Qed.

Lemma month_entry_total (top_n : Z) (models_in_month : Dict.t Q) :
  exists entry,
    month_entry top_n models_in_month = Ok entry
    /\ (Qsum (Dict.values models_in_month) == 0 ->
        Forall (fun t => pct t == 0) (top_models entry)).
Proof.
  unfold month_entry.
  set (total := Qsum (Dict.values models_in_month)).
  set (ranked := slice_to top_n _).
  set (row := fun nc : string * Q => _).
  assert (R : forall nc,
             exists t, row nc = Ok t /\ (total == 0 -> pct t == 0)).
  { intros nc. unfold row. destruct (Qlt_bool 0 total) eqn:E.
    - apply Qlt_bool_iff in E.
      rewrite truediv_ok
        by (intros Z; rewrite Z in E; apply Qlt_irrefl in E; exact E).
      simpl. eexists. split; [ reflexivity | ].
      intros Z. rewrite Z in E. apply Qlt_irrefl in E. contradiction.
    - simpl. eexists. split; [ reflexivity | ].
      intros _. simpl. reflexivity. }
  destruct (comprehension_total row ranked) as (tops & E & F).
  { intros nc _. destruct (R nc) as (t & Et & _). exists t. exact Et. }
  rewrite E. simpl. eexists. split; [ reflexivity | ].
  intros Z. simpl. clear E.
  induction F as [ | nc t l l' Hnc _ IH ]; constructor; [ | exact IH ].
  destruct (R nc) as (t' & Et & Ht). rewrite Et in Hnc.
  injection Hnc as <-. apply Ht. exact Z.
Qed.

(** Every month of the result is the entry of its bucket. *)
Lemma calculate_monthly_breakdown_total
    (attributions : Dict.t CostAttribution) (top_n : Z) :
  exists r,
    calculate_monthly_breakdown fromisoformat strftime attributions top_n
    = Ok r
    /\ forall key entry,
         Dict.lookup (months r) key = Some entry ->
         month_entry top_n
           (Dict.get (monthly_buckets fromisoformat strftime attributions)
                     key [])
         = Ok entry.
Proof.
  unfold calculate_monthly_breakdown.
  set (monthly := monthly_buckets fromisoformat strftime attributions).
  set (body := fun (months : Dict.t Month) (key : string) => _).
  destruct (for_each_total body (sorted String.leb (Dict.keys monthly)))
    with (s := @nil (string * Month)) as [ms E].
  { intros key s _. unfold body.
    destruct (month_entry_total top_n (Dict.get monthly key []))
      as (entry & Ee & _).
    rewrite Ee. simpl. eexists. reflexivity. }
  rewrite E. simpl. eexists. split; [ reflexivity | ]. simpl.
  revert E.
  apply (for_each_invariant body
           (fun ms => forall key entry,
                Dict.lookup ms key = Some entry ->
                month_entry top_n (Dict.get monthly key []) = Ok entry)).
  - intros key s s' _ Hs. unfold body.
    destruct (month_entry top_n (Dict.get monthly key [])) eqn:Ee; simpl;
      [ | discriminate ].
    intros [= <-] key' entry'. rewrite lookup_set.
    destruct (String.eqb key key') eqn:K; [ | apply Hs ].
    apply String.eqb_eq in K. subst key'. intros [= <-]. exact Ee.
  - intros key entry. discriminate.
Qed.


Lemma month_key_spec (start : string) :
  month_key fromisoformat strftime start
  = month_of fromisoformat strftime start.
Proof.
  unfold month_key, month_of, parsed.
  destruct (String.eqb start ""); reflexivity.
Qed.

Lemma length_set {V : Type} (d : Dict.t V) (k : string) (v : V) :
  List.length (Dict.set d k v)
  = if Dict.mem d k then List.length d else S (List.length d).
Proof.
  unfold Dict.mem. induction d as [ | [k0 v0] d IH ]; simpl.
  - reflexivity.
  - destruct (String.eqb k0 k); simpl; [ reflexivity | ].
    rewrite IH. destruct (Dict.lookup d k); reflexivity.
Qed.

Lemma existsb_tagged (p : Event -> bool) (nm nm' : string)
    (evs : list Event) :
  existsb (fun e : string * Event => String.eqb (fst e) nm')
          (map (pair nm) (filter p evs))
  = String.eqb nm nm' && existsb p evs.
Proof.
  induction evs as [ | ev evs IH ]; simpl.
  - rewrite andb_false_r. reflexivity.
  - destruct (p ev); simpl; rewrite IH;
      destruct (String.eqb nm nm'); reflexivity.
Qed.

Lemma Forall2_In_left {A B : Type} (R : A -> B -> Prop) (l : list A)
    (l' : list B) (x : A) :
  Forall2 R l l' -> In x l -> exists y, In y l' /\ R x y.
Proof.
  induction 1 as [ | a b l l' Hab _ IH ]; [ contradiction | ].
  intros [ <- | H ].
  - exists b. split; [ left; reflexivity | exact Hab ].
  - destruct (IH H) as (y & Hy & Ry). exists y.
    split; [ right; exact Hy | exact Ry ].
Qed.

(** The entry of a month gives the month's credits, rounded, and,
    where the ranking is not cut, lists every model of the month. *)
Lemma month_entry_lists (top_n : Z) (bucket : Dict.t Q) (e : Month) :
  month_entry top_n bucket = Ok e ->
  month_credits e = round (Qsum (Dict.values bucket)) 4
  /\ ((Z.of_nat (List.length bucket) <= top_n)%Z ->
      forall nm, Dict.mem bucket nm = true ->
                 exists t, In t (top_models e) /\ model t = nm).
Proof.
  unfold month_entry.
  set (total := Qsum (Dict.values bucket)).
  set (ranked := slice_to top_n _).
  set (row := fun nc : string * Q => _).
  destruct (comprehension_total row ranked) as (tops & E & F).
  { intros nc _. unfold row. destruct (Qlt_bool 0 total) eqn:P.
    - apply Qlt_bool_iff in P.
      rewrite truediv_ok
        by (intros Z; rewrite Z in P; apply Qlt_irrefl in P; exact P).
      simpl. eexists. reflexivity.
    - simpl. eexists. reflexivity. }
  rewrite E. simpl. intros [= <-]. cbn [month_credits top_models].
  split; [ reflexivity | ].
  intros L nm M. unfold Dict.mem in M.
  destruct (Dict.lookup bucket nm) as [ c | ] eqn:Lk; [ | discriminate ].
  apply lookup_In in Lk.
  assert (R : In (nm, c) ranked).
  { unfold ranked, slice_to.
    replace (0 <=? top_n)%Z with true by (symmetry; apply Z.leb_le; lia).
    rewrite firstn_all2
      by (rewrite length_sorted; unfold Dict.items; lia).
    apply In_sorted. exact Lk. }
  destruct (Forall2_In_left _ _ _ _ F R) as (t & Ht & Rt).
  exists t. split; [ exact Ht | ].
  unfold row in Rt.
  destruct (if Qlt_bool 0 total then _ else _); simpl in Rt;
    [ | discriminate ].
  injection Rt as <-. reflexivity.
Qed.

Section Buckets.

Variable key : string.

Let in_key (ev : Event) : bool :=
  String.eqb (month_of fromisoformat strftime (event_start_time ev)) key.

Lemma bucket_step (nm : string) (monthly : Dict.t (Dict.t Q))
    (ev : Event) :
  let k := month_key fromisoformat strftime (event_start_time ev) in
  let b := Dict.get monthly key [] in
  Dict.get
    (Dict.set monthly k
       (Dict.set (Dict.get monthly k []) nm
          (Dict.get (Dict.get monthly k []) nm 0 + credits_share ev)))
    key []
  = if in_key ev
    then Dict.set b nm (Dict.get b nm 0 + credits_share ev)
    else b.
Proof.
  cbv zeta. rewrite month_key_spec, get_set. unfold in_key.
  destruct (String.eqb _ key) eqn:E; [ | reflexivity ].
  apply String.eqb_eq in E. rewrite E. reflexivity.
Qed.

(** The events of one attribution: those of the month add their
    credits to the month's bucket, under the name of the model. *)
Lemma bucket_events_spec (item : string * CostAttribution) :
  forall monthly : Dict.t (Dict.t Q),
    let b := Dict.get monthly key [] in
    let b' :=
      Dict.get (bucket_events fromisoformat strftime monthly item) key [] in
    Qsum (Dict.values b')
    == Qsum (Dict.values b)
       + Qsum (map credits_share (filter in_key (queries (snd item))))
    /\ (forall nm',
          Dict.mem b' nm'
          = Dict.mem b nm'
            || (String.eqb (fst item) nm'
                && existsb in_key (queries (snd item))))
    /\ (List.length b' + (if Dict.mem b' (fst item) then 0 else 1)
        <= List.length b + (if Dict.mem b (fst item) then 0 else 1))%nat.
Proof.
  unfold bucket_events.
  induction (queries (snd item)) as [ | ev evs IH ]; intros monthly;
    cbn [fold_left filter map existsb].
  - cbv zeta. split; [ change (Qsum []) with 0; lra | ].
    split; [ | lia ].
    intros nm'. rewrite andb_false_r, orb_false_r. reflexivity.
  - match goal with
    | |- context [ fold_left _ evs ?m ] => destruct (IH m) as (S & M & L)
    end.
    cbv zeta in S, M, L |- *.
    pose proof (bucket_step (fst item) monthly ev) as B.
    cbv zeta in B. unfold Dict.t in B, S, M, L.
    rewrite B in S, M, L. clear B.
    destruct (in_key ev) eqn:K.
    + cbn [map]. split; [ | split ].
      * rewrite S, Qsum_values_set.
        change (Qsum (credits_share ev :: ?l))
          with (credits_share ev + Qsum l).
        unfold Dict.t. lra.
      * intros nm'. rewrite M, mem_set.
        destruct (String.eqb (fst item) nm'), (Dict.mem _ nm');
          reflexivity.
      * rewrite mem_set, String.eqb_refl in L. cbn [orb] in L.
        rewrite length_set in L. revert L. unfold Dict.t.
        repeat match goal with
               | |- context [ if ?b then _ else _ ] => destruct b
               end; lia.
    + split; [ exact S | split; [ | exact L ] ].
      intros nm'. rewrite M. reflexivity.
Qed.

Lemma events_in_cons (item : string * CostAttribution)
    (items : Dict.t CostAttribution) :
  events_in fromisoformat strftime key (item :: items)
  = (map (pair (fst item)) (filter in_key (queries (snd item)))
     ++ events_in fromisoformat strftime key items)%list.
Proof. reflexivity. Qed.

Lemma buckets_from (items : Dict.t CostAttribution) :
  forall monthly : Dict.t (Dict.t Q),
    let b := Dict.get monthly key [] in
    let b' :=
      Dict.get (fold_left (bucket_events fromisoformat strftime)
                          items monthly) key [] in
    Qsum (Dict.values b')
    == Qsum (Dict.values b) + credits_in fromisoformat strftime key items
    /\ (forall nm',
          Dict.mem b' nm'
          = Dict.mem b nm'
            || existsb (fun e : string * Event => String.eqb (fst e) nm')
                       (events_in fromisoformat strftime key items))
    /\ (List.length b' <= List.length b + List.length items)%nat.
Proof.
  induction items as [ | item items IH ]; intros monthly.
  - cbv zeta. cbn [fold_left]. unfold credits_in. cbn.
    split; [ lra | ]. split; [ | lia ].
    intros nm'. rewrite orb_false_r. reflexivity.
  - cbn [fold_left].
    destruct (IH (bucket_events fromisoformat strftime monthly item))
      as (S & M & L).
    destruct (bucket_events_spec item monthly) as (S1 & M1 & L1).
    cbv zeta in S, M, L, S1, M1, L1 |- *.
    split; [ | split ].
    + rewrite S, S1. unfold credits_in. rewrite events_in_cons.
      rewrite map_app, Qsum_app.
      assert (E : map (fun e : string * Event => credits_share (snd e))
                      (map (pair (fst item))
                           (filter in_key (queries (snd item))))
                  = map credits_share
                        (filter in_key (queries (snd item))))
        by (rewrite map_map; reflexivity).
      rewrite E. unfold Dict.t. lra.
    + intros nm'. rewrite M, M1, events_in_cons, existsb_app.
      rewrite existsb_tagged, orb_assoc. reflexivity.
    + cbn [List.length]. revert L L1. unfold Dict.t.
      repeat match goal with
             | |- context [ if ?b then _ else _ ] => destruct b
             end; lia.
Qed.

End Buckets.

(** The bucket of a month holds the month's credits, under the names
    of the models of its events. *)
Lemma monthly_buckets_spec (attributions : Dict.t CostAttribution)
    (key : string) :
  let bucket :=
    Dict.get (monthly_buckets fromisoformat strftime attributions) key [] in
  Qsum (Dict.values bucket)
  == credits_in fromisoformat strftime key attributions
  /\ (forall nm ev,
        In (nm, ev) (events_in fromisoformat strftime key attributions) ->
        Dict.mem bucket nm = true)
  /\ (List.length bucket <= List.length attributions)%nat.
Proof.
  destruct (buckets_from key attributions []) as (S & M & L).
  cbv zeta in S, M, L |- *. fold (monthly_buckets fromisoformat strftime attributions) in S, M, L.
  split; [ rewrite S; cbn; lra | ]. split; [ | exact L ].
  intros nm ev H. rewrite M. cbn [Dict.get Dict.lookup Dict.mem orb].
  apply existsb_exists. exists (nm, ev).
  split; [ exact H | apply String.eqb_refl ].
Qed.

Lemma In_events_in (attributions : Dict.t CostAttribution) (key nm : string)
    (ev : Event) :
  In (nm, ev) (events_in fromisoformat strftime key attributions)
  <-> exists item,
        In item (Dict.items attributions) /\ fst item = nm
        /\ In ev (queries (snd item))
        /\ month_of fromisoformat strftime (event_start_time ev) = key.
Proof.
  unfold events_in. rewrite in_flat_map. split.
  - intros (item & Hi & H). apply in_map_iff in H.
    destruct H as (ev' & [= <- <-] & H). apply filter_In in H.
    destruct H as [He K]. apply String.eqb_eq in K.
    exists item. repeat split; assumption.
  - intros (item & Hi & <- & He & K). exists item. split; [ exact Hi | ].
    apply in_map. apply filter_In.
    split; [ exact He | apply String.eqb_eq; exact K ].
Qed.

Lemma bucket_events_keys (item : string * CostAttribution) (key : string) :
  forall monthly : Dict.t (Dict.t Q),
    Dict.mem (bucket_events fromisoformat strftime monthly item) key
    = Dict.mem monthly key
      || existsb
           (fun ev =>
              String.eqb
                (month_key fromisoformat strftime (event_start_time ev)) key)
           (queries (snd item))
    /\ (NoDup (Dict.keys monthly) ->
        NoDup (Dict.keys
                 (bucket_events fromisoformat strftime monthly item))).
Proof.
  unfold bucket_events.
  induction (queries (snd item)) as [ | ev evs IH ]; intros monthly; simpl.
  - rewrite orb_false_r. auto.
  - match goal with
    | |- context [ fold_left _ evs ?m ] => destruct (IH m) as [M N]
    end.
    rewrite M, mem_set. split.
    + destruct (String.eqb _ key); simpl;
        [ rewrite orb_true_r | ]; reflexivity.
    + intros H. apply N. apply NoDup_keys_set. exact H.
Qed.

Lemma monthly_buckets_keys (attributions : Dict.t CostAttribution)
    (key : string) :
  Dict.mem (monthly_buckets fromisoformat strftime attributions) key
  = existsb
      (fun item =>
         existsb
           (fun ev =>
              String.eqb
                (month_key fromisoformat strftime (event_start_time ev)) key)
           (queries (snd item)))
      (Dict.items attributions)
  /\ NoDup (Dict.keys (monthly_buckets fromisoformat strftime attributions)).
Proof.
  unfold monthly_buckets, Dict.items.
  assert (G : forall (items : list (string * CostAttribution))
                     (monthly : Dict.t (Dict.t Q)),
             Dict.mem (fold_left (bucket_events fromisoformat strftime)
                                 items monthly) key
             = Dict.mem monthly key
               || existsb
                    (fun item =>
                       existsb
                         (fun ev =>
                            String.eqb
                              (month_key fromisoformat strftime
                                         (event_start_time ev)) key)
                         (queries (snd item)))
                    items
             /\ (NoDup (Dict.keys monthly) ->
                 NoDup (Dict.keys
                          (fold_left (bucket_events fromisoformat strftime)
                                     items monthly)))).
  { induction items as [ | item items IH ]; intros monthly; simpl.
    - rewrite orb_false_r. auto.
    - destruct (IH (bucket_events fromisoformat strftime monthly item))
        as [M N].
      destruct (bucket_events_keys item key monthly) as [M1 N1].
      rewrite M, M1, orb_assoc. auto. }
  destruct (G attributions []) as [M N]. rewrite M. simpl.
  split; [ reflexivity | apply N; constructor ].
Qed.

Lemma months_loop (f : string -> result Month) (l : list string) :
  forall acc ms : Dict.t Month,
    for_each
      (fun months key => entry <- f key ;; Ok (Dict.set months key entry))
      l acc = Ok ms ->
    NoDup (Dict.keys acc ++ l) ->
    Dict.keys ms = Dict.keys acc ++ l.
Proof.
  induction l as [ | key l IH ]; intros acc ms; simpl.
  - intros [= <-] _. rewrite app_nil_r. reflexivity.
  - destruct (f key) as [ entry | ] eqn:E; simpl; [ | discriminate ].
    intros H N.
    assert (K : Dict.keys (Dict.set acc key entry) = Dict.keys acc ++ [key]).
    { rewrite keys_set. unfold Dict.mem.
      destruct (Dict.lookup acc key) eqn:L; [ | reflexivity ].
      apply lookup_In in L. apply NoDup_remove_2 in N.
      contradiction N. apply in_or_app. left.
      change key with (fst (key, m)). apply in_map. exact L. }
    rewrite (IH _ _ H); rewrite K, <- app_assoc; [ reflexivity | exact N ].
Qed.

(** The months of the result are the months in which events fall. *)
Lemma months_keys (attributions : Dict.t CostAttribution) (top_n : Z)
    (r : Breakdown) :
  calculate_monthly_breakdown fromisoformat strftime attributions top_n
  = Ok r ->
  forall key,
    In key (Dict.keys (months r))
    <-> exists nm ev,
          In (nm, ev) (events_in fromisoformat strftime key attributions).
Proof.
  intros E key. unfold calculate_monthly_breakdown in E.
  set (monthly := monthly_buckets fromisoformat strftime attributions) in *.
  match type of E with
  | bind ?loop _ = _ => destruct loop as [ ms | ] eqn:L
  end; simpl in E; [ | discriminate ].
  injection E as <-. cbn [months].
  assert (NK : NoDup (Dict.keys monthly))
    by apply (monthly_buckets_keys attributions "").
  assert (NS : NoDup (sorted String.leb (Dict.keys monthly))).
  { apply (Permutation_NoDup (l := Dict.keys monthly));
      [ symmetry; apply sorted_perm | exact NK ]. }
  pose proof (months_loop
                (fun key => month_entry top_n (Dict.get monthly key []))
                _ _ _ L NS) as K.
  simpl in K. rewrite K, In_sorted.
  destruct (monthly_buckets_keys attributions key) as [M _].
  fold monthly in M.
  assert (I : In key (Dict.keys monthly) <-> Dict.mem monthly key = true).
  { unfold Dict.mem. destruct (Dict.lookup monthly key) eqn:Lk.
    - split; [ reflexivity | intros _ ].
      apply lookup_In in Lk. change key with (fst (key, t)).
      apply in_map. exact Lk.
    - apply lookup_None in Lk. split; [ contradiction | discriminate ]. }
  rewrite I, M, existsb_exists. split.
  + intros (item & Hi & X). apply existsb_exists in X.
    destruct X as (ev & He & X). apply String.eqb_eq in X.
    rewrite month_key_spec in X.
    exists (fst item), ev. apply In_events_in. exists item.
    repeat split; assumption.
  + intros (nm & ev & H). apply In_events_in in H.
    destruct H as (item & Hi & _ & He & X). exists item.
    split; [ exact Hi | ].
    apply existsb_exists. exists ev. split; [ exact He | ].
    apply String.eqb_eq. rewrite month_key_spec. exact X.
Qed.

Lemma lookup_keys {V : Type} (d : Dict.t V) (k : string) :
  In k (Dict.keys d) -> exists v, Dict.lookup d k = Some v.
Proof.
  intros H. destruct (Dict.lookup d k) eqn:L; [ eexists; reflexivity | ].
  apply lookup_None in L. contradiction.
Qed.

(** Where an event lands: the result has an entry for its month, whose
    credits are those of the month's events and which, the ranking
    not being cut, lists the event's model. *)
Lemma event_lands (attributions : Dict.t CostAttribution) (top_n : Z)
    (r : Breakdown) (key nm : string) (ev : Event) :
  calculate_monthly_breakdown fromisoformat strftime attributions top_n
  = Ok r ->
  In (nm, ev) (events_in fromisoformat strftime key attributions) ->
  exists entry,
    Dict.lookup (months r) key = Some entry
    /\ month_credits entry
       = round (credits_in fromisoformat strftime key attributions) 4
    /\ ((Z.of_nat (List.length attributions) <= top_n)%Z ->
        exists t, In t (top_models entry) /\ model t = nm).
Proof.
  intros E H.
  destruct (lookup_keys (months r) key) as [entry Lk].
  { apply (months_keys attributions top_n r E). exists nm, ev. exact H. }
  exists entry. split; [ exact Lk | ].
  destruct (calculate_monthly_breakdown_total attributions top_n)
    as (r' & E' & T).
  rewrite E in E'. injection E' as <-.
  destruct (month_entry_lists _ _ _ (T key entry Lk)) as [C Ls].
  destruct (monthly_buckets_spec attributions key) as (S & M & L).
  cbv zeta in S, M, L.
  split; [ rewrite C; apply round_eq; exact S | ].
  intros N. apply Ls; [ lia | ]. apply (M nm ev H).
Qed.

End Calendar.

(** C9.  The aggregation paths never raise, and every event is counted
    in a month.  [calculate_monthly_breakdown] returns for every input;
    the months of its result are exactly the months in which events
    fall; an event whose start time is empty, or is text that
    [fromisoformat] rejects once every [Z] is replaced by [+00:00], is
    counted in the month [unknown]: the result has that month, its
    credits are those of the events counted in it and, where [top_n] does
    not cut the ranking, the event's model is listed there; an event
    whose start time ends in [Z] is counted in the month of the UTC
    timestamp; a month whose credits sum to exactly 0 reports
    percentage 0 for each ranked model.  The detectors divide by a total
    that is never zero (1 stands in for a zero sum, so also for an empty
    query list), and return for every input, in exact arithmetic and
    over the interpreter's floats. *)
Theorem aggregation_total
    (fromisoformat : string -> option Pipecost.datetime)
    (strftime : Pipecost.datetime -> string -> string) :
  (forall attributions top_n,
      exists r,
        calculate_monthly_breakdown fromisoformat strftime attributions top_n
        = Ok r
        /\ (forall key,
              In key (Dict.keys (months r))
              <-> exists nm ev,
                    In (nm, ev)
                       (events_in fromisoformat strftime key attributions))
        /\ (forall item ev,
              In item (Dict.items attributions) ->
              In ev (queries (snd item)) ->
              event_start_time ev = ""
              \/ fromisoformat (replace_Z (event_start_time ev)) = None ->
              In (fst item, ev)
                 (events_in fromisoformat strftime "unknown" attributions)
              /\ exists entry,
                   Dict.lookup (months r) "unknown" = Some entry
                   /\ month_credits entry
                      = round (credits_in fromisoformat strftime "unknown"
                                          attributions) 4
                   /\ ((Z.of_nat (List.length attributions) <= top_n)%Z ->
                       exists t,
                         In t (top_models entry) /\ model t = fst item))
        /\ (forall item ev s dt,
              In item (Dict.items attributions) ->
              In ev (queries (snd item)) ->
              event_start_time ev = (s ++ "Z")%string ->
              fromisoformat (replace_Z s ++ "+00:00")%string = Some dt ->
              In (fst item, ev)
                 (events_in fromisoformat strftime (strftime dt "%Y-%m")
                            attributions)
              /\ In (strftime dt "%Y-%m") (Dict.keys (months r)))
        /\ (forall key entry,
              Dict.lookup (months r) key = Some entry ->
              month_credits entry
              = round (credits_in fromisoformat strftime key attributions) 4
              /\ (credits_in fromisoformat strftime key attributions == 0 ->
                  Forall (fun t => pct t == 0) (top_models entry))))
  /\ (forall queries,
        ~ snd (Pipecost._cost_map queries) == 0)
  /\ snd (Pipecost._cost_map []) = 1
  /\ (forall models queries,
        (exists z, Pipecost.detect_zombies models queries = Ok z)
        /\ (exists o, Pipecost.detect_over_scheduling models queries = Ok o)
        /\ (exists r, Pipecost.detect_redundant models queries = Ok r)
        /\ (exists report, Pipecost.analyze models queries = Ok report))
  /\ (forall (F : Type) (fl : Floats F) models
             (queries : list (PipecostFloat.QueryRecord F)),
        is_zero (snd (PipecostFloat._cost_map queries)) = false
        /\ (exists z, PipecostFloat.detect_zombies models queries = Ok z)
        /\ (exists o,
              PipecostFloat.detect_over_scheduling models queries = Ok o)).
Proof.
  split.
  { intros attributions top_n.
    destruct (calculate_monthly_breakdown_total fromisoformat strftime
                attributions top_n) as (r & E & H).
    exists r. split; [ exact E | ].
    split; [ apply (months_keys _ _ _ _ _ E) | ].
    split; [ | split ].
    - intros item ev Hi He U.
      assert (X : In (fst item, ev)
                     (events_in fromisoformat strftime "unknown"
                                attributions)).
      { apply In_events_in. exists item. repeat split; try assumption.
        rewrite <- month_key_spec. apply month_key_unknown. exact U. }
      split; [ exact X | ].
      apply (event_lands _ _ _ _ _ _ _ _ E X).
    - intros item ev s dt Hi He S P.
      assert (X : In (fst item, ev)
                     (events_in fromisoformat strftime (strftime dt "%Y-%m")
                                attributions)).
      { apply In_events_in. exists item. repeat split; try assumption.
        rewrite <- month_key_spec, S. apply month_key_zulu. exact P. }
      split; [ exact X | ].
      apply (months_keys _ _ _ _ _ E). exists (fst item), ev. exact X.
    - intros key entry L.
      destruct (month_entry_lists _ _ _ (H key entry L))
        as [C _].
      destruct (monthly_buckets_spec fromisoformat strftime attributions key)
        as (S & _).
      cbv zeta in S.
      split; [ rewrite C; apply round_eq; exact S | ].
      intros Z.
      destruct (month_entry_total top_n
                  (Dict.get (monthly_buckets fromisoformat strftime
                                             attributions) key []))
        as (entry' & Ee & Zero).
      rewrite (H key entry L) in Ee. injection Ee as <-.
      apply Zero. rewrite S. exact Z. }
  split; [ apply PipecostFacts.cost_map_total_nonzero | ].
  split; [ reflexivity | ].
  split.
  { intros models queries.
    destruct (PipecostFacts.analyze_eq models queries)
      as (z & o & r & Ez & Eo & Er & Ea).
    repeat split; eexists; eassumption. }
  intros F fl models queries. split; [ | split ].
  - rewrite PipecostFloatFacts.float_cost_map_total.
    apply PipecostFloatFacts.all_credits_nonzero.
  - eexists. apply PipecostFloatFacts.float_detect_zombies_eq.
  - eexists. apply PipecostFloatFacts.float_detect_over_scheduling_eq.
Qed.


(** ** calculate_monthly_breakdown: months and ranking *)




Section Ranking.

Variable fromisoformat : string -> option Pipecost.datetime.
Variable strftime : Pipecost.datetime -> string -> string.


End Ranking.

(** ** parse_query_history: the first bad row decides *)

Section RowErrors.

Variable int_of_str : string -> option Z.
Variable float_of_str : string -> option Q.
Variable repr : json -> string.






End RowErrors.



End SnowflakeFacts.
